(** * Gemini completion provider and BFG context retriever

    A shallow embedding of [vscode/src/completions/providers/google.ts]:
    the prompt builder and post-processing of [GoogleGeminiProvider], the
    provider factory [createProvider], and the [BfgRetriever] class that
    drives the external graph-context engine over JSON-RPC.

    JavaScript strings are modelled by [string]; a character stands for one
    code unit below 256.  JavaScript numbers that hold lengths and budgets
    are modelled by [Z]. *)

From Stdlib Require Import ZArith Ascii String List Lia Bool DecimalString.
From stdpp Require Import gmap strings list.

Local Open Scope string_scope.
Local Arguments String.append : simpl nomatch.

(** ** String primitives of the host language *)

Module Js.

Definition nl : string := String (ascii_of_nat 10) EmptyString.

(** [s.startsWith(key)] *)
Definition startsWith (s key : string) : bool := String.prefix key s.

(** [s.includes(sub)] *)
Fixpoint includes (s sub : string) : bool :=
  if String.prefix sub s then true
  else match s with
       | EmptyString => false
       | String _ s' => includes s' sub
       end.

(** One left-to-right scan of [s.replaceAll(pat, repl)] for a non-empty
    [pat]: [skip] counts the characters of the current match that are still
    to be consumed. *)
Fixpoint replaceAllFrom (pat repl : string) (skip : nat) (s : string) : string :=
  match s with
  | EmptyString => EmptyString
  | String c s' =>
      match skip with
      | S k => replaceAllFrom pat repl k s'
      | O =>
          if String.prefix pat s
          then repl +:+ replaceAllFrom pat repl (String.length pat - 1) s'
          else String c (replaceAllFrom pat repl 0 s')
      end
  end.

(** With the empty pattern the replacement goes between all code units. *)
Fixpoint intersperse (repl s : string) : string :=
  match s with
  | EmptyString => repl
  | String c s' => repl +:+ String c (intersperse repl s')
  end.

Definition replaceAll (s pat repl : string) : string :=
  match pat with
  | EmptyString => intersperse repl s
  | _ => replaceAllFrom pat repl 0 s
  end.

(** White space as [trimEnd] sees it, among the code units below 256. *)
Definition isWhiteSpace (c : ascii) : bool :=
  let n := nat_of_ascii c in
  ((9 <=? n)%nat && (n <=? 13)%nat) || (n =? 32)%nat || (n =? 160)%nat.

(** [s.trimEnd()] *)
Fixpoint trimEnd (s : string) : string :=
  match s with
  | EmptyString => EmptyString
  | String c s' =>
      match trimEnd s' with
      | EmptyString => if isWhiteSpace c then EmptyString else String c EmptyString
      | t => String c t
      end
  end.

(** The length of a string as a JavaScript number. *)
Definition len (s : string) : Z := Z.of_nat (String.length s).

(** A thrown [Error] with its message. *)
Inductive Error := MkError (message : string).

(** Vocabulary for statements about strings: the character [<], whether a
    character occurs in a string, a string without its first [k]
    characters, and "[sub] is a substring of [s]". *)
Definition ltSign : ascii := ascii_of_nat 60.

Fixpoint occurs (c : ascii) (s : string) : bool :=
  match s with
  | EmptyString => false
  | String d s' => Ascii.eqb d c || occurs c s'
  end.

Fixpoint dropN (k : nat) (s : string) : string :=
  match k, s with
  | S k', String _ s' => dropN k' s'
  | _, _ => s
  end.

Definition substring_of (sub s : string) : Prop :=
  exists pre post, s = pre +:+ sub +:+ post.

End Js.

(** ** The Gemini provider *)

Module Gemini.
Import Js.

(** [MARKERS] *)
Record Markers := { Prefix : string; Suffix : string; Response : string }.

Definition MARKERS : Markers :=
  {| Prefix := "<|prefix|>"; Suffix := "<|suffix|>"; Response := "<|fim|>" |}.

Inductive Speaker := human | assistant.

Record Message := { speaker : Speaker; text : string }.

(** The fields of [GenerateCompletionsOptions] that [createPrompt] reads:
    the document context and the display path of the document's URI. *)
Record DocContext := { prefix : string; suffix : string }.

Record GenerateCompletionsOptions :=
  { docContext : DocContext; documentPath : string }.

(** An [AutocompleteContextSnippet] as [PromptString] presents it: the
    display path of its URI, its content, and its symbol when it has one. *)
Record AutocompleteContextSnippet :=
  { uri : string; content : string; symbol : option string }.

(** [createContext] *)
Definition createContext (type name content : string) : string :=
  nl +:+ "-TYPE: " +:+ type +:+ nl +:+ "-NAME: " +:+ name +:+ nl
     +:+ "-CONTENT: " +:+ trimEnd content +:+ nl +:+ "---" +:+ nl.

(** The block of one snippet, lines 57-63.  A symbol that is present is a
    [PromptString] object, hence truthy even when it wraps no character. *)
Definition contextPrompt (snippet : AutocompleteContextSnippet) : string :=
  createContext
    (match symbol snippet with Some _ => "symbol" | None => "file" end)
    (match symbol snippet with Some sym => sym | None => uri snippet end)
    (content snippet).

(** The text of the human turn, lines 81-94. *)
Definition fimPrompt (options : GenerateCompletionsOptions) : string :=
  Prefix MARKERS +:+ prefix (docContext options) +:+ Response MARKERS
    +:+ suffix (docContext options) +:+ Suffix MARKERS.

Definition humanText (options : GenerateCompletionsOptions)
    (groupedSnippets : string) : string :=
  "You are a code completion AI, designed to autofill code enclosed in special markers based on its surrounding context."
    +:+ nl +:+ groupedSnippets +:+ nl +:+ nl
    +:+ "Code from " +:+ documentPath options +:+ " file:" +:+ nl
    +:+ fimPrompt options +:+ nl +:+ nl
    +:+ "Your mission is to generate completed code that I can replace the "
    +:+ Response MARKERS
    +:+ " markers with, ensuring a seamless and syntactically correct result."
    +:+ nl +:+ nl
    +:+ "Do not repeat code from before and after " +:+ Response MARKERS
    +:+ " in your output." +:+ nl
    +:+ "Maintain consistency with the indentation, spacing, and coding style used in the code."
    +:+ nl
    +:+ "Leave the output markers empty if no code is required to bridge the gap."
    +:+ nl
    +:+ "Your response should contains only the code required to connect the gap, and the code must be enclosed between "
    +:+ Response MARKERS +:+ " WITHOUT backticks".

(** Lines 75-99: wrap the packed blocks and build the two turns. *)
Definition wrapSnippets (groupedSnippets : string) : string :=
  if (0 <? len groupedSnippets)%Z
  then "Context:" +:+ nl +:+ groupedSnippets +:+ nl
  else groupedSnippets.

Definition buildMessages (options : GenerateCompletionsOptions)
    (groupedSnippets : string) : list Message :=
  [ {| speaker := human; text := humanText options (wrapSnippets groupedSnippets) |};
    {| speaker := assistant; text := Response MARKERS |} ].

Section Prompt.

  (** [messagesToText] comes from [../utils] and [getHeadAndTail] from
      [../text-processing]; neither is part of this file.  The prompt
      builder is parametric in both. *)
Variable messagesToText : list Message -> string.
Variable PrefixComponents : Type.
Variable getHeadAndTail : string -> PrefixComponents.

Record Prompt :=
  { messages : list Message; prefixComponents : PrefixComponents }.

(** [createPrompt(options, [])]: the loop body never runs, so neither
    [promptChars] nor [emptyPromptLength] is consulted. *)
Definition createPromptNoSnippets (options : GenerateCompletionsOptions) : Prompt :=
  {| messages := buildMessages options "";
     prefixComponents := getHeadAndTail (prefix (docContext options)) |}.

(** [emptyPromptLength] *)
Definition emptyPromptLength (options : GenerateCompletionsOptions) : Z :=
  (len (messagesToText (messages (createPromptNoSnippets options))) - 10)%Z.

(** The [for] loop of lines 56-73, with [groupedSnippets] as accumulator;
    [break] leaves the loop with what has been packed so far. *)
Fixpoint packSnippets (promptChars : Z) (options : GenerateCompletionsOptions)
    (snippets : list AutocompleteContextSnippet) (groupedSnippets : string) : string :=
  match snippets with
  | [] => groupedSnippets
  | snippet :: rest =>
      let block := contextPrompt snippet in
      if (len block + 1 >? promptChars - emptyPromptLength options)%Z
         || (len block =? 0)%Z
      then groupedSnippets
      else packSnippets promptChars options rest (groupedSnippets +:+ block)
  end.

(** [createPrompt] *)
Definition createPrompt (promptChars : Z) (options : GenerateCompletionsOptions)
    (snippets : list AutocompleteContextSnippet) : Prompt :=
  {| messages := buildMessages options (packSnippets promptChars options snippets "");
     prefixComponents := getHeadAndTail (prefix (docContext options)) |}.

(** The size of a prompt, measured the way [emptyPromptLength] measures
    the prompt without snippets. *)
Definition promptLength (p : Prompt) : Z := len (messagesToText (messages p)).

End Prompt.

Arguments messages {PrefixComponents} _.
Arguments prefixComponents {PrefixComponents} _.
Arguments promptLength messagesToText {PrefixComponents} p.

(** The blocks of a list of snippets, one after the other. *)
Definition joinBlocks (snippets : list AutocompleteContextSnippet) : string :=
  fold_right (fun snippet acc => contextPrompt snippet +:+ acc) "" snippets.

(** A small completion request and a short symbol snippet, used to run the
    builder. *)
Definition sampleOptions : GenerateCompletionsOptions :=
  {| docContext := {| prefix := "const x = "; suffix := ";" |};
     documentPath := "src/a.ts" |}.

Definition sampleSnippet : AutocompleteContextSnippet :=
  {| uri := "src/b.ts"; content := "x"; symbol := Some "f" |}.

(** The test of lines 65-68 against what is left of the budget, as the
    condition under which the block is packed. *)
Definition fits (remaining : Z) (snippet : AutocompleteContextSnippet) : bool :=
  negb ((len (contextPrompt snippet) + 1 >? remaining)%Z
        || (len (contextPrompt snippet) =? 0)%Z).

(** The longest leading run of elements that satisfy [p]. *)
Fixpoint leadingRun {A} (p : A -> bool) (l : list A) : list A :=
  match l with
  | [] => []
  | x :: rest => if p x then x :: leadingRun p rest else []
  end.

(** The characters of the blocks of a list of snippets. *)
Definition blocksLength (snippets : list AutocompleteContextSnippet) : Z :=
  fold_right (fun snippet acc => (len (contextPrompt snippet) + acc)%Z) 0%Z snippets.

Fixpoint allWhiteSpace (s : string) : bool :=
  match s with
  | EmptyString => true
  | String c s' => isWhiteSpace c && allWhiteSpace s'
  end.

(** A rendering of the turns for evaluating the builder: each message is
    its speaker's turn marker followed by its text.  The two turn markers
    stay parameters. *)
Definition renderMessages (humanPrompt aiPrompt : string)
    (msgs : list Message) : string :=
  fold_right
    (fun m acc =>
       (match speaker m with human => humanPrompt | assistant => aiPrompt end)
         +:+ text m +:+ acc)
    "" msgs.

Section PostProcess.

  (** [fixBadCompletionStart] comes from [../text-processing]. *)
Variable fixBadCompletionStart : string -> string.

(** [postProcess] *)
Definition postProcess (rawResponse : string) : string :=
  let completion := rawResponse in
  let completion :=
    replaceAll (replaceAll completion (Response MARKERS) "") (Suffix MARKERS) "" in
  let completion := fixBadCompletionStart completion in
  completion.

End PostProcess.

(** Modelled from the spec: [fixBadCompletionStart] is not part of this
    file; the spec has it strip leading noise characters from the raw
    output.  [isNoise] says which characters count as noise. *)
Fixpoint stripLeading (isNoise : ascii -> bool) (s : string) : string :=
  match s with
  | EmptyString => EmptyString
  | String c s' => if isNoise c then stripLeading isNoise s' else s
  end.

(** White space and the list bullets [+], [-] and [.]. *)
Definition isNoiseChar (c : ascii) : bool :=
  isWhiteSpace c
  || (nat_of_ascii c =? 43)%nat || (nat_of_ascii c =? 45)%nat
  || (nat_of_ascii c =? 46)%nat.

(** Vocabulary for raw output: a sequence of stretches of text and of
    whole markers.  The text is any string; [flatten] is the raw output the
    sequence spells, [keepAll] erases no chunk, [textOf] is what is left of
    the output once its markers are erased. *)
Inductive Marker := ResponseMarker | SuffixMarker.

Inductive Chunk := Text (t : string) | Mark (m : Marker).

Definition markerString (m : Marker) : string :=
  match m with
  | ResponseMarker => Response MARKERS
  | SuffixMarker => Suffix MARKERS
  end.

Definition chunkString (c : Chunk) : string :=
  match c with
  | Text t => t
  | Mark m => markerString m
  end.

Fixpoint flatten (chunks : list Chunk) : string :=
  match chunks with
  | [] => ""
  | c :: rest => chunkString c +:+ flatten rest
  end.

Definition sameMarker (m m' : Marker) : bool :=
  match m, m' with
  | ResponseMarker, ResponseMarker | SuffixMarker, SuffixMarker => true
  | _, _ => false
  end.

(** The chunks without the marks of one kind. *)
Fixpoint without (m : Marker) (chunks : list Chunk) : list Chunk :=
  match chunks with
  | [] => []
  | Mark m' :: rest =>
      if sameMarker m m' then without m rest else Mark m' :: without m rest
  | c :: rest => c :: without m rest
  end.

Fixpoint textOf (chunks : list Chunk) : string :=
  match chunks with
  | [] => ""
  | Text t :: rest => t +:+ textOf rest
  | Mark _ :: rest => textOf rest
  end.

(** [SUPPORTED_GEMINI_MODELS] *)
Definition SUPPORTED_GEMINI_MODELS : list string :=
  ["gemini-1.5-flash"; "gemini-pro"; "gemini-1.0-pro"].

(** The options handed to the [GoogleGeminiProvider] constructor. *)
Record GoogleGeminiProvider (Source : Type) :=
  { id : string; legacyModel : string; source : Source }.
Arguments id {Source} _.
Arguments legacyModel {Source} _.
Arguments source {Source} _.

(** How a template literal prints a model name that may be [undefined]. *)
Definition showModel (m : option string) : string :=
  match m with Some s => s | None => "undefined" end.

(** [createProvider]: [inl] is the thrown error, [inr] the provider. *)
Definition createProvider {Source : Type}
    (legacyModel : option string) (source : Source)
    : Error + GoogleGeminiProvider Source :=
  let clientModel :=
    match legacyModel with Some m => m | None => "google/gemini-1.5-flash" end in
  if negb (existsb (fun m => includes clientModel m) SUPPORTED_GEMINI_MODELS)
  then inl (MkError ("Model " +:+ showModel legacyModel
                       +:+ " is not supported by GeminiProvider"))
  else inr {| id := "google"; legacyModel := clientModel; source := source |}.

End Gemini.

(** ** The BFG retriever *)

Module Bfg.
Import Js.

(** *** Values on the JSON-RPC channel *)

#[warnings="-register-all"]
Inductive JsValue :=
| JUndefined
| JNull
| JBool (b : bool)
| JNum (n : Z)
| JStr (s : string)
| JArr (items : list JsValue)
| JObj (fields : list (string * JsValue)).

(** [typeof v === 'object'] *)
Definition typeofObject (v : JsValue) : bool :=
  match v with
  | JNull | JArr _ | JObj _ => true
  | _ => false
  end.

(** The conversion to boolean that [||] applies. *)
Definition truthy (v : JsValue) : bool :=
  match v with
  | JUndefined | JNull | JBool false => false
  | JNum n => negb (n =? 0)%Z
  | JStr s => negb (String.eqb s "")
  | _ => true
  end.

Fixpoint lookupField (name : string) (fields : list (string * JsValue)) : JsValue :=
  match fields with
  | [] => JUndefined
  | (k, v) :: rest => if String.eqb k name then v else lookupField name rest
  end.

(** [{ ...fields, name: v }] *)
Fixpoint setField (name : string) (v : JsValue) (fields : list (string * JsValue))
    : list (string * JsValue) :=
  match fields with
  | [] => [(name, v)]
  | (k, w) :: rest =>
      if String.eqb k name then (k, v) :: rest else (k, w) :: setField name v rest
  end.

Definition hasField (name : string) (fields : list (string * JsValue)) : bool :=
  existsb (fun field => String.eqb (fst field) name) fields.

(** Whether the conversion of [v] to a string, as a template literal does
    it, throws.  A value from the channel is never a function: an object
    with a [toString] member of its own has no callable [toString], and the
    inherited [valueOf] returns the object itself, so the conversion has no
    primitive to return.  An array joins the conversions of its elements,
    [null] and [undefined] counting as the empty string. *)
Fixpoint toStringThrows (v : JsValue) : bool :=
  match v with
  | JObj fields => hasField "toString" fields
  | JArr l => existsb toStringThrows l
  | _ => false
  end.

(** *** Outcomes of awaited work and the retriever's state *)

(** What [await p] does: [p] is fulfilled, is rejected, or never settles. *)
Inductive Outcome (A : Type) :=
| Return (a : A)
| Throw (e : Error)
| Pending.
Arguments Return {A} a.
Arguments Throw {A} e.
Arguments Pending {A}.

Record Rpc := { method : string; params : JsValue }.

(** The fields of [BfgRetriever].  [loadedBFG] and [bfgIndexingPromise]
    hold what the promise settles to.  [requests] and [spawned] are ghost
    fields: every request sent to the engine so far, oldest first, and the
    number of calls to [spawnBfg]. *)
Record BfgRetriever :=
  { loadedBFG : Outcome unit;
    bfgIndexingPromise : Outcome unit;
    awaitIndexing : bool;
    didFailLoading : bool;
    indexedRepositoryRevisions : gmap string string;
    requests : list Rpc;
    spawned : nat }.

Definition withRevisions (m : gmap string string) (s : BfgRetriever) : BfgRetriever :=
  {| loadedBFG := loadedBFG s; bfgIndexingPromise := bfgIndexingPromise s;
     awaitIndexing := awaitIndexing s; didFailLoading := didFailLoading s;
     indexedRepositoryRevisions := m;
     requests := requests s; spawned := spawned s |}.

Definition withRequests (l : list Rpc) (s : BfgRetriever) : BfgRetriever :=
  {| loadedBFG := loadedBFG s; bfgIndexingPromise := bfgIndexingPromise s;
     awaitIndexing := awaitIndexing s; didFailLoading := didFailLoading s;
     indexedRepositoryRevisions := indexedRepositoryRevisions s;
     requests := l; spawned := spawned s |}.

Definition withSpawned (n : nat) (s : BfgRetriever) : BfgRetriever :=
  {| loadedBFG := loadedBFG s; bfgIndexingPromise := bfgIndexingPromise s;
     awaitIndexing := awaitIndexing s; didFailLoading := didFailLoading s;
     indexedRepositoryRevisions := indexedRepositoryRevisions s;
     requests := requests s; spawned := n |}.

Definition withLoadedBFG (p : Outcome unit) (failed : bool) (s : BfgRetriever)
    : BfgRetriever :=
  {| loadedBFG := p; bfgIndexingPromise := bfgIndexingPromise s;
     awaitIndexing := awaitIndexing s; didFailLoading := failed;
     indexedRepositoryRevisions := indexedRepositoryRevisions s;
     requests := requests s; spawned := spawned s |}.

Definition withIndexingPromise (p : Outcome unit) (s : BfgRetriever) : BfgRetriever :=
  {| loadedBFG := loadedBFG s; bfgIndexingPromise := p;
     awaitIndexing := awaitIndexing s; didFailLoading := didFailLoading s;
     indexedRepositoryRevisions := indexedRepositoryRevisions s;
     requests := requests s; spawned := spawned s |}.

(** *** A state and exception monad for the async methods

    A method runs from one state to the next; it returns, throws (its
    promise is rejected) or stays pending.  State changes made before a
    throw persist. *)
Definition M (A : Type) : Type := BfgRetriever -> Outcome A * BfgRetriever.

Definition ret {A} (a : A) : M A := fun s => (Return a, s).

Definition throw {A} (e : Error) : M A := fun s => (Throw e, s).

Definition bind {A B} (m : M A) (k : A -> M B) : M B :=
  fun s =>
    match m s with
    | (Return a, s') => k a s'
    | (Throw e, s') => (Throw e, s')
    | (Pending, s') => (Pending, s')
    end.

Definition get : M BfgRetriever := fun s => (Return s, s).

Definition modify (f : BfgRetriever -> BfgRetriever) : M unit :=
  fun s => (Return tt, f s).

(** [await p] for a promise with outcome [p] *)
Definition await {A} (p : Outcome A) : M A := fun s => (p, s).

(** A call that returns or throws at once *)
Definition sync {A} (r : Error + A) : M A :=
  match r with
  | inl e => throw e
  | inr a => ret a
  end.

(** [try { m } catch (error) { h error }] *)
Definition tryCatch {A} (m : M A) (h : Error -> M A) : M A :=
  fun s =>
    match m s with
    | (Throw e, s') => h e s'
    | r => r
    end.

(** [preserves I m]: when [I] holds before [m], it holds after it, however
    [m] ends. *)
Definition preserves {A} (I : BfgRetriever -> Prop) (m : M A) : Prop :=
  forall s, I s -> I (snd (m s)).

Declare Scope bfg_scope.
Delimit Scope bfg_scope with bfg.
Notation "x <- m ;; k" := (bind m (fun x => k))
  (at level 100, m at next level, right associativity) : bfg_scope.
Notation "m ;;; k" := (bind m (fun _ => k))
  (at level 100, right associativity) : bfg_scope.
Local Open Scope bfg_scope.

(** [for (const x of l) { body x }] *)
Fixpoint forEach {A} (l : list A) (body : A -> M unit) : M unit :=
  match l with
  | [] => ret tt
  | x :: rest => body x ;;; forEach rest body
  end.

(** [array.map(f)] for an [f] that may throw *)
Fixpoint mapM {A B} (f : A -> M B) (l : list A) : M (list B) :=
  match l with
  | [] => ret []
  | x :: rest => y <- f x ;; ys <- mapM f rest ;; ret (y :: ys)
  end.

(** *** The editor's side *)

(** [SimpleRepository]: a repository root and its commit, if known. *)
Record SimpleRepository := { uri : string; commit : option string }.

(** A repository of the Git extension, with [repository?.state?.HEAD?.commit]. *)
Record Repository := { rootUri : string; headCommit : option string }.

(** What the methods read from [vscode.workspace], [vscodeGitAPI] and the
    configuration at the time they run. *)
Record Workspace :=
  { workspaceFolders : option (list string);
    gitRepositories : option (list Repository);
    indexParentGitFolder : bool;
    awaitIndexingSetting : bool }.

(** A request object of the identifier extractors.  [ref] is the identity
    of the object: two objects are the same object when their [ref]s are
    equal. *)
Record SymbolRequest := { ref : nat; symbolName : string }.

Record TextDocument := { documentUri : string; languageId : string }.

Record Position := { line : nat; character : nat }.

(** [lastTriggerDocContext.currentLinePrefix] and the [insertText] of
    each of [result.items]. *)
Record LastCandidate := { currentLinePrefix : string; items : list string }.

Record ContextRetrieverOptions :=
  { document : TextDocument;
    position : Position;
    lastCandidate : option LastCandidate }.

Definition typeError : Error := MkError "TypeError".

(** [v[name]] for a name that is neither an index nor a built-in member
    ([symbols] and [fileName] below): reading it from [null] or [undefined]
    throws, and only an object can have it. *)
Definition getProp (v : JsValue) (name : string) : M JsValue :=
  match v with
  | JUndefined | JNull => throw typeError
  | JObj fields => ret (lookupField name fields)
  | _ => ret JUndefined
  end.

Definition showNat (n : nat) : string := NilEmpty.string_of_uint (Nat.to_uint n).

Fixpoint indexed (i : nat) (l : list JsValue) : list (string * JsValue) :=
  match l with
  | [] => []
  | x :: rest => (showNat i, x) :: indexed (S i) rest
  end.

(** The own enumerable properties that [{ ...v }] copies. *)
Definition spread (v : JsValue) : list (string * JsValue) :=
  match v with
  | JObj fields => fields
  | JArr l => indexed 0 l
  | JStr s => indexed 0 (map (fun c => JStr (String c EmptyString)) (list_ascii_of_string s))
  | _ => []
  end.

(** [new Set(l)] keeps the first of the elements that are the same object;
    [Array.from] lists a set in insertion order. *)
Definition setAdd (seen : list SymbolRequest) (x : SymbolRequest) : list SymbolRequest :=
  if existsb (fun y => Nat.eqb (ref y) (ref x)) seen then seen else seen ++ [x].

Definition newSet (l : list SymbolRequest) : list SymbolRequest :=
  fold_left setAdd l [].

(** [repository.commit !== this.indexedRepositoryRevisions.get(uri)] *)
Definition strictNeq (a b : option string) : bool := negb (bool_decide (a = b)).

(** [isSupportedForLanguageId] *)
Definition isSupportedForLanguageId (languageId : string) : bool :=
  existsb (String.eqb languageId)
    ["typescript"; "typescriptreact"; "javascript"; "javascriptreact";
     "java"; "go"; "dart"; "python"; "zig"].

(** [isWorkspaceIndexed], on the revision map *)
Definition isWorkspaceIndexed (revisions : gmap string string) (folder : string) : bool :=
  existsb (fun key => startsWith folder key) (map fst (map_to_list revisions)).

(** *** Vocabulary of the statements *)

(** The method names as the specification lists them. *)
Definition specifiedMethods : list string :=
  ["engine/initialize"; "engine/gitRevision/didChange"; "engine/workspace/didChange";
   "engine/contextForIdentifiers"; "engine/shutdown"].

(** The five requests of the channel, each with the shape of its payload. *)
Definition wellFormedRequest (q : Rpc) : Prop :=
  (method q = "bfg/initialize"
   /\ exists clientName, params q = JObj [("clientName", JStr clientName)])
  \/ (method q = "bfg/gitRevision/didChange"
      /\ exists u, params q = JObj [("gitDirectoryUri", JStr u)])
  \/ (method q = "bfg/workspace/didChange"
      /\ exists u, params q = JObj [("workspaceUri", JStr u)])
  \/ (method q = "bfg/contextForIdentifiers"
      /\ exists u identifiers maxSnippets maxDepth,
           params q = JObj [("uri", JStr u);
                            ("identifiers", JArr (map JStr identifiers));
                            ("maxSnippets", JNum maxSnippets);
                            ("maxDepth", JNum maxDepth)])
  \/ (method q = "bfg/shutdown" /\ params q = JNull).

Definition allWellFormed (s : BfgRetriever) : Prop :=
  Forall wellFormedRequest (requests s).

(** The requests of the handshake and of the two notifications. *)
Definition initializeRequest : Rpc :=
  {| method := "bfg/initialize"; params := JObj [("clientName", JStr "vscode")] |}.

Definition gitRevisionDidChange (gitDirectoryUri : string) : Rpc :=
  {| method := "bfg/gitRevision/didChange";
     params := JObj [("gitDirectoryUri", JStr gitDirectoryUri)] |}.

Definition workspaceDidChange (workspaceUri : string) : Rpc :=
  {| method := "bfg/workspace/didChange";
     params := JObj [("workspaceUri", JStr workspaceUri)] |}.

(** A retriever whose load failed: the flag is set, the promise is
    rejected, and [sent] and [n] are its requests and spawns so far. *)
Definition failedWith (sent : list Rpc) (n : nat) (s : BfgRetriever) : Prop :=
  didFailLoading s = true
  /\ (exists e, loadedBFG s = Throw e)
  /\ requests s = sent
  /\ spawned s = n.

(** A workspace, a repository and a retrieval request to run sessions on. *)
Definition sampleWorkspace : Workspace :=
  {| workspaceFolders := Some ["/repo/sub"; "/other"];
     gitRepositories := Some [ {| rootUri := "/repo"; headCommit := Some "abc" |} ];
     indexParentGitFolder := false;
     awaitIndexingSetting := false |}.

Definition sampleRepository : SimpleRepository :=
  {| uri := "/repo"; commit := Some "def" |}.

Definition sampleRetrieve : ContextRetrieverOptions :=
  {| document := {| documentUri := "file:///repo/a.ts"; languageId := "typescript" |};
     position := {| line := 0; character := 0 |};
     lastCandidate := None |}.

(** The union of two lists of names: first occurrences, in order. *)
Fixpoint dedupNames (seen l : list string) : list string :=
  match l with
  | [] => []
  | x :: rest =>
      if existsb (String.eqb x) seen then dedupNames seen rest
      else x :: dedupNames (x :: seen) rest
  end.

Definition unionOfNames (a b : list string) : list string := dedupNames [] (a ++ b).

(** A reply to the context query from which no snippet list can be read:
    not an object, [null], a [symbols] member that is neither falsy nor an
    array, or an array of symbols with a [null] or [undefined] in it. *)
Definition malformed (response : JsValue) : Prop :=
  typeofObject response = false
  \/ response = JNull
  \/ (exists fields,
        response = JObj fields
        /\ truthy (lookupField "symbols" fields) = true
        /\ forall l, lookupField "symbols" fields <> JArr l)
  \/ (exists fields l,
        response = JObj fields
        /\ lookupField "symbols" fields = JArr l
        /\ (In JNull l \/ In JUndefined l)).

(** The two extractor results of the specification's example, as the
    separate objects that two calls produce. *)
Definition sourceA : list SymbolRequest :=
  [ {| ref := 0; symbolName := "foo" |}; {| ref := 1; symbolName := "bar" |} ].

Definition sourceB : list SymbolRequest :=
  [ {| ref := 2; symbolName := "bar" |}; {| ref := 3; symbolName := "baz" |} ].

(** A loaded retriever with [/repo] indexed, a symbol as the engine
    returns it, and a stand-in for [vscode.Uri.from]. *)
Definition sampleLoaded : BfgRetriever :=
  {| loadedBFG := Return tt; bfgIndexingPromise := Return tt;
     awaitIndexing := false; didFailLoading := false;
     indexedRepositoryRevisions := {[ "/repo" := "abc" ]};
     requests := [initializeRequest]; spawned := 1 |}.

Definition sampleSymbol : JsValue :=
  JObj [("fileName", JStr "/repo/b.ts"); ("symbol", JStr "foo");
        ("content", JStr "function foo() {}")].

Definition fileUri (scheme : string) (path : JsValue) : JsValue :=
  JObj [("scheme", JStr scheme); ("path", path)].

Definition shutdownRequest : Rpc := {| method := "bfg/shutdown"; params := JNull |}.

Definition isReturn {A} (o : Outcome A) : bool :=
  match o with Return _ => true | _ => false end.

Definition isPending {A} (o : Outcome A) : bool :=
  match o with Pending => true | _ => false end.

(** [contextSnippet.fileName] of a value that is neither [null] nor
    [undefined]. *)
Definition fileNameOf (contextSnippet : JsValue) : JsValue :=
  match contextSnippet with
  | JObj fields => lookupField "fileName" fields
  | _ => JUndefined
  end.

(** A reply to the context query that is an object without symbols: an
    array, or an object whose [symbols] member is missing, falsy or the
    empty array. *)
Definition noSymbols (response : JsValue) : Prop :=
  (exists l, response = JArr l)
  \/ (exists fields,
        response = JObj fields
        /\ (truthy (lookupField "symbols" fields) = false
            \/ lookupField "symbols" fields = JArr [])).

(** Every key of [m] is a key of [m']. *)
Definition keepsKeys (m m' : gmap string string) : Prop :=
  forall key, is_Some (m !! key) -> is_Some (m' !! key).

(** [I] holds and the engine is loaded. *)
Definition loadedAnd (I : BfgRetriever -> Prop) (s : BfgRetriever) : Prop :=
  I s /\ loadedBFG s = Return tt.

(** After a rejected load, [m] records at most one revision, and when it
    records one it ends there, rejected with the error of the load. *)
Definition abortsOnRecord (m : M unit) : Prop :=
  forall s e,
    loadedBFG s = Throw e ->
    loadedBFG (snd (m s)) = Throw e
    /\ ((fst (m s) = Return tt
         /\ indexedRepositoryRevisions (snd (m s)) = indexedRepositoryRevisions s)
        \/ (isReturn (fst (m s)) = false
            /\ indexedRepositoryRevisions (snd (m s)) = indexedRepositoryRevisions s)
        \/ (fst (m s) = Throw e
            /\ exists u c,
                 indexedRepositoryRevisions (snd (m s))
                 = <[u := c]> (indexedRepositoryRevisions s))).

(** The fields that the constructor sets and no method changes. *)
Definition sameProcess (s0 s : BfgRetriever) : Prop :=
  loadedBFG s = loadedBFG s0
  /\ didFailLoading s = didFailLoading s0
  /\ awaitIndexing s = awaitIndexing s0
  /\ bfgIndexingPromise s = bfgIndexingPromise s0
  /\ spawned s = spawned s0.

(** *** The methods of [BfgRetriever] *)

Section Engine.

  (** The engine process and the helpers that live in other files:
      - [spawnBfg]: how spawning the process ends;
      - [engine]: the reply to a request, given the requests sent before;
      - [isAlive]: the liveness probe of the message handler;
      - [inferGitRepository] of [./simple-git];
      - the two identifier extractors of [../graph/identifiers];
      - [uriFrom scheme path] for [vscode.Uri.from];
      - [retrieverIdentifier] for [RetrieverIdentifier.BfgRetriever]. *)
Variable spawnBfg : Outcome unit.
Variable engine : list Rpc -> Rpc -> Outcome JsValue.
Variable isAlive : list Rpc -> bool.
Variable inferGitRepository : string -> Outcome (option SimpleRepository).
Variable getLastNGraphContextIdentifiersFromString :
  nat -> string -> string -> string -> list SymbolRequest.
Variable getLastNGraphContextIdentifiersFromDocument :
  nat -> TextDocument -> Position -> list SymbolRequest.
Variable uriFrom : string -> JsValue -> Error + JsValue.
Variable retrieverIdentifier : string.

(** [bfg.request(method, params)]: the request goes out, then the reply
    is awaited. *)
Definition request (method : string) (params : JsValue) : M JsValue :=
  fun s =>
    let q := {| method := method; params := params |} in
    (engine (requests s) q, withRequests (requests s ++ [q]) s).

(** [doLoadBFG], behind [loadBFG] *)
Definition doLoadBFG : M unit :=
  modify (fun s => withSpawned (S (spawned s)) s) ;;;
  await spawnBfg ;;;
  request "bfg/initialize" (JObj [("clientName", JStr "vscode")]) ;;;
  ret tt.

(** [indexEntry] *)
Definition indexEntry (repository : option SimpleRepository)
    (workspace : option string) : M unit :=
  match repository, workspace with
  | None, None => ret tt
  | _, _ =>
      s <- get ;;
      await (loadedBFG s) ;;;
      tryCatch
        ((match repository with
          | Some r =>
              request "bfg/gitRevision/didChange"
                (JObj [("gitDirectoryUri", JStr (uri r))]) ;;; ret tt
          | None => ret tt
          end) ;;;
         (match workspace with
          | Some w =>
              request "bfg/workspace/didChange"
                (JObj [("workspaceUri", JStr w)]) ;;; ret tt
          | None => ret tt
          end))
        (fun _ => ret tt)
  end.

(** [didChangeSimpleRepository] *)
Definition didChangeSimpleRepository (repository : SimpleRepository) : M unit :=
  s <- get ;;
  if strictNeq (commit repository) (indexedRepositoryRevisions s !! uri repository)
  then
    modify (fun s =>
      withRevisions
        (<[uri repository := default "" (commit repository)]>
           (indexedRepositoryRevisions s)) s) ;;;
    indexEntry (Some repository) None
  else ret tt.

(** [didChangeGitExtensionRepository]: [!commit] holds for a missing
    and for an empty commit. *)
Definition didChangeGitExtensionRepository (repository : Repository) : M unit :=
  match headCommit repository with
  | None => ret tt
  | Some c =>
      if String.eqb c "" then ret tt
      else didChangeSimpleRepository {| uri := rootUri repository; commit := Some c |}
  end.

(** [indexInferredGitRepositories] *)
Definition indexInferredGitRepositories (ws : Workspace) : M unit :=
  if negb (indexParentGitFolder ws) then ret tt
  else
    forEach (default [] (workspaceFolders ws)) (fun folder =>
      s <- get ;;
      if bool_decide (is_Some (indexedRepositoryRevisions s !! folder)) then ret tt
      else
        repo <- await (inferGitRepository folder) ;;
        match repo with
        | Some r => didChangeSimpleRepository r
        | None => ret tt
        end).

(** [indexGitRepositories]; the two subscriptions it registers are the
    operations [DidOpenRepository] and [DidChangeWorkspaceFolders] below. *)
Definition indexGitRepositories (ws : Workspace) : M unit :=
  match gitRepositories ws with
  | None => ret tt
  | Some repositories =>
      forEach repositories didChangeGitExtensionRepository ;;;
      indexInferredGitRepositories ws
  end.

(** [indexRemainingWorkspaceFolders] *)
Definition indexRemainingWorkspaceFolders (ws : Workspace) : M unit :=
  forEach (default [] (workspaceFolders ws)) (fun folder =>
    s <- get ;;
    if isWorkspaceIndexed (indexedRepositoryRevisions s) folder then ret tt
    else indexEntry None (Some folder)).

(** [indexWorkspace] *)
Definition indexWorkspace (ws : Workspace) : M unit :=
  indexGitRepositories ws ;;; indexRemainingWorkspaceFolders ws.

(** The state of a retriever whose constructor has not run yet. *)
Definition blank (ws : Workspace) : BfgRetriever :=
  {| loadedBFG := Pending; bfgIndexingPromise := Return tt;
     awaitIndexing := awaitIndexingSetting ws; didFailLoading := false;
     indexedRepositoryRevisions := ∅; requests := []; spawned := 0 |}.

Definition isThrow {A} (o : Outcome A) : bool :=
  match o with Throw _ => true | _ => false end.

(** The constructor: load the engine, flag a failed load, then index the
    workspace.  Every request of the indexing awaits [loadedBFG], so the
    handshake is the first request on the channel. *)
Definition construct (ws : Workspace) : BfgRetriever :=
  let '(loaded, s1) := doLoadBFG (blank ws) in
  let s2 := withLoadedBFG loaded (isThrow loaded) s1 in
  let '(indexing, s3) := indexWorkspace ws s2 in
  withIndexingPromise indexing s3.

(** Lines 380-382.  Without a last candidate the optional chain is
    [undefined], which [+] prints; with one, [items[0]] must exist. *)
Definition lastCandidateCurrentLine (lastCandidate : option LastCandidate)
    : Error + string :=
  match lastCandidate with
  | None => inr ("" +:+ "undefined")
  | Some c =>
      match items c with
      | [] => inl typeError
      | insertText :: _ => inr (currentLinePrefix c +:+ insertText)
      end
  end.

(** Lines 385-402 *)
Definition inputIdentifiers (o : ContextRetrieverOptions) (source : string)
    : list SymbolRequest :=
  newSet
    (getLastNGraphContextIdentifiersFromString 10
       (documentUri (document o)) (languageId (document o)) source
     ++ getLastNGraphContextIdentifiersFromDocument 10 (document o) (position o)).

(** The request of lines 404-409 *)
Definition contextQuery (o : ContextRetrieverOptions) (source : string) : Rpc :=
  {| method := "bfg/contextForIdentifiers";
     params :=
       JObj [("uri", JStr (documentUri (document o)));
             ("identifiers",
              JArr (map (fun snippetRequest => JStr (symbolName snippetRequest))
                      (inputIdentifiers o source)));
             ("maxSnippets", JNum 20);
             ("maxDepth", JNum 4)] |}.

(** The callback of lines 417-421 *)
Definition convertSnippet (contextSnippet : JsValue) : M JsValue :=
  let copied := spread contextSnippet in
  fileName <- getProp contextSnippet "fileName" ;;
  u <- sync (uriFrom "file" fileName) ;;
  ret (JObj (setField "uri" u
               (setField "identifier" (JStr retrieverIdentifier) copied))).

(** [(response.symbols || []).map(...)]: only an array has [map]. *)
Definition convertSymbols (response : JsValue) : M (list JsValue) :=
  symbols <- getProp response "symbols" ;;
  match (if truthy symbols then symbols else JArr []) with
  | JArr l => mapM convertSnippet l
  | _ => throw typeError
  end.

(** The callback of line 427, in the argument of the [logDebug] call of
    lines 423-429: the template literal converts [s.symbol] and [s.content]
    to strings. *)
Definition describeSymbol (s : JsValue) : M unit :=
  symbol <- getProp s "symbol" ;;
  content <- getProp s "content" ;;
  if toStringThrows symbol || toStringThrows content then throw typeError
  else ret tt.

(** Lines 411-434: what [retrieve] makes of the reply. *)
Definition readReply (response : JsValue) : M (list JsValue) :=
  if negb (typeofObject response) then ret []
  else
    symbols <- convertSymbols response ;;
    mapM describeSymbol symbols ;;;
    ret symbols.

(** [retrieve] *)
Definition retrieve (o : ContextRetrieverOptions) : M (list JsValue) :=
  tryCatch
    (s <- get ;;
     if didFailLoading s then ret []
     else
       await (loadedBFG s) ;;;
       s <- get ;;
       if negb (isAlive (requests s)) then ret []
       else
         (if awaitIndexing s then await (bfgIndexingPromise s) else ret tt) ;;;
         source <- sync (lastCandidateCurrentLine (lastCandidate o)) ;;
         let q := contextQuery o source in
         response <- request (method q) (params q) ;;
         readReply response)
    (fun _ => ret []).

(** [dispose]: the shutdown request is sent and its reply is dropped. *)
Definition dispose : M unit :=
  s <- get ;;
  if didFailLoading s then ret tt
  else
    match loadedBFG s with
    | Return _ => fun s => (Return tt, snd (request "bfg/shutdown" JNull s))
    | _ => ret tt
    end.

(** The gates of [retrieve] before its request: the load succeeded, the
    probe answers, the indexing that is awaited is done, and the last
    candidate gives the line [source]. *)
Definition reachesQuery (o : ContextRetrieverOptions) (s : BfgRetriever)
    (source : string) : Prop :=
  didFailLoading s = false
  /\ loadedBFG s = Return tt
  /\ isAlive (requests s) = true
  /\ (awaitIndexing s = true -> bfgIndexingPromise s = Return tt)
  /\ lastCandidateCurrentLine (lastCandidate o) = inr source.

(** The failures that [retrieve] turns into "no context". *)
Definition degraded (o : ContextRetrieverOptions) (s : BfgRetriever) : Prop :=
  didFailLoading s = true
  \/ (exists e, loadedBFG s = Throw e)
  \/ (loadedBFG s = Return tt /\ isAlive (requests s) = false)
  \/ (exists source,
        reachesQuery o s source
        /\ ((exists e, engine (requests s) (contextQuery o source) = Throw e)
            \/ (exists response,
                  engine (requests s) (contextQuery o source) = Return response
                  /\ malformed response))).

(** *** Sessions

    After the constructor, the retriever is driven by calls of its public
    methods and by the two event handlers it subscribed. *)
Inductive Op :=
| Retrieve (o : ContextRetrieverOptions)
| DidOpenRepository (repository : Repository)
| DidChangeWorkspaceFolders (ws : Workspace)
| Dispose.

Inductive Reply :=
| Snippets (l : list JsValue)
| Done.

Definition step (op : Op) : M Reply :=
  match op with
  | Retrieve o => l <- retrieve o ;; ret (Snippets l)
  | DidOpenRepository r => didChangeGitExtensionRepository r ;;; ret Done
  | DidChangeWorkspaceFolders ws => indexInferredGitRepositories ws ;;; ret Done
  | Dispose => dispose ;;; ret Done
  end.

(** Run the operations in order; collect what each one settles to. *)
Fixpoint run (ops : list Op) (s : BfgRetriever)
    : list (Outcome Reply) * BfgRetriever :=
  match ops with
  | [] => ([], s)
  | op :: rest =>
      let '(r, s') := step op s in
      let '(rs, s'') := run rest s' in
      (r :: rs, s'')
  end.

End Engine.

End Bfg.

(** * Properties *)

(** ** Strings *)

Module JsFacts.
Import Js.

Lemma length_app (s t : string) :
  String.length (s +:+ t) = (String.length s + String.length t)%nat.
Proof. induction s as [|c s IH]; simpl; [reflexivity | now rewrite IH]. Qed.

Lemma len_app (s t : string) : len (s +:+ t) = (len s + len t)%Z.
Proof. unfold len. rewrite length_app. lia. Qed.

Lemma app_assoc (s t u : string) : (s +:+ t) +:+ u = s +:+ (t +:+ u).
Proof. induction s as [|c s IH]; simpl; [reflexivity | now rewrite IH]. Qed.

Lemma app_nil_r (s : string) : s +:+ "" = s.
Proof. induction s as [|c s IH]; simpl; [reflexivity | now rewrite IH]. Qed.

Lemma occurs_app c (s t : string) : occurs c (s +:+ t) = occurs c s || occurs c t.
Proof.
  induction s as [|d s IH]; simpl; [reflexivity |].
  rewrite IH. now rewrite orb_assoc.
Qed.

(** [prefix] decides "begins with". *)
Lemma prefix_spec (p s : string) :
  String.prefix p s = true <-> exists rest, s = p +:+ rest.
Proof.
  revert s. induction p as [|c p IH]; intros s.
  - split; [intros _; now exists s | intros _; now destruct s].
  - destruct s as [|d s]; simpl.
    + split; [discriminate | intros [rest H]; discriminate].
    + destruct (ascii_dec c d) as [->|Hne].
      * rewrite IH. split; intros [rest H]; exists rest; simpl in *; congruence.
      * split; [discriminate | intros [rest H]; simpl in H; congruence].
Qed.

Lemma prefix_app (p rest : string) : String.prefix p (p +:+ rest) = true.
Proof. apply prefix_spec. now exists rest. Qed.

(** [includes] decides "has as a substring". *)
Lemma includes_spec (s sub : string) :
  includes s sub = true <-> substring_of sub s.
Proof.
  unfold substring_of. induction s as [|c s IH].
  - cbn [includes]. destruct (String.prefix sub "") eqn:Hp.
    + split; [intros _ | reflexivity].
      apply prefix_spec in Hp as [rest Hp]. now exists "", rest.
    + split; [discriminate |]. intros (pre & post & H).
      destruct pre; [| discriminate]. simpl in H.
      assert (String.prefix sub "" = true) by (apply prefix_spec; eauto).
      congruence.
  - cbn [includes]. destruct (String.prefix sub (String c s)) eqn:Hp.
    + split; [intros _ | reflexivity].
      apply prefix_spec in Hp as [rest Hp]. now exists "", rest.
    + rewrite IH. split.
      * intros (pre & post & H). exists (String c pre), post. simpl. now rewrite H.
      * intros (pre & post & H). destruct pre as [|d pre]; simpl in H.
        -- assert (String.prefix sub (String c s) = true)
             by (apply prefix_spec; eauto).
           congruence.
        -- injection H as _ H. eauto.
Qed.

Lemma includes_occurs c (s sub : string) :
  occurs c sub = true -> includes s sub = true -> occurs c s = true.
Proof.
  intros Hc (pre & post & ->)%includes_spec.
  rewrite !occurs_app, Hc. now rewrite orb_true_r.
Qed.

(** Skipping [k] characters of a match is dropping them. *)
Lemma replaceAllFrom_skip pat repl k s :
  replaceAllFrom pat repl k s = replaceAllFrom pat repl 0 (dropN k s).
Proof.
  revert k. induction s as [|c s IH]; intros [|k]; try reflexivity.
  simpl. apply IH.
Qed.

Lemma dropN_app (p rest : string) : dropN (String.length p) (p +:+ rest) = rest.
Proof. induction p as [|c p IH]; simpl; [now destruct rest | exact IH]. Qed.

(** The scan at a match: the match is replaced and the scan goes on
    behind it. *)
Lemma replaceAllFrom_match c pat repl rest :
  replaceAllFrom (String c pat) repl 0 (String c pat +:+ rest)
  = repl +:+ replaceAllFrom (String c pat) repl 0 rest.
Proof.
  change (String c pat +:+ rest) with (String c (pat +:+ rest)).
  cbn [replaceAllFrom].
  change (String c (pat +:+ rest)) with (String c pat +:+ rest).
  rewrite prefix_app. f_equal.
  rewrite replaceAllFrom_skip.
  replace (String.length (String c pat) - 1)%nat with (String.length pat)
    by (simpl; lia).
  now rewrite dropN_app.
Qed.

(** The scan at a character that does not start a match. *)
Lemma replaceAllFrom_other c d pat repl s :
  c <> d ->
  replaceAllFrom (String c pat) repl 0 (String d s)
  = String d (replaceAllFrom (String c pat) repl 0 s).
Proof.
  intros Hne. cbn [replaceAllFrom].
  destruct (String.prefix (String c pat) (String d s)) eqn:Hp; [| reflexivity].
  apply prefix_spec in Hp as [rest Hp]. simpl in Hp. congruence.
Qed.

End JsFacts.

(** ** The Gemini provider *)

Module GeminiFacts.
Import Js Gemini JsFacts.

(** *** [createProvider] *)

Lemma existsb_supported (clientModel : string) :
  existsb (fun m => includes clientModel m) SUPPORTED_GEMINI_MODELS = true
  <-> (substring_of "gemini-1.5-flash" clientModel
       \/ substring_of "gemini-pro" clientModel
       \/ substring_of "gemini-1.0-pro" clientModel).
Proof.
  unfold SUPPORTED_GEMINI_MODELS. cbn [existsb].
  rewrite !orb_true_iff, !includes_spec. intuition discriminate.
Qed.

(** C10: [createProvider] returns a provider, with id [google] and the client
    model (the requested model, or [google/gemini-1.5-flash] when none is
    requested), exactly when the client model contains [gemini-1.5-flash],
    [gemini-pro] or [gemini-1.0-pro]; for every other model it throws an
    error and returns no provider. *)
Theorem createProvider_supported_models
    (Source : Type) (legacyModel : option string) (source : Source) :
  let clientModel := default "google/gemini-1.5-flash" legacyModel in
  let supported :=
    substring_of "gemini-1.5-flash" clientModel
    \/ substring_of "gemini-pro" clientModel
    \/ substring_of "gemini-1.0-pro" clientModel in
  (supported <->
     createProvider legacyModel source
     = inr {| id := "google"; legacyModel := clientModel; source := source |})
  /\ (~ supported <->
        exists message, createProvider legacyModel source = inl (MkError message)).
Proof.
  intros clientModel supported.
  assert (Hmodel : clientModel
                   = match legacyModel with
                     | Some m => m
                     | None => "google/gemini-1.5-flash"
                     end) by now destruct legacyModel.
  unfold createProvider. rewrite <- Hmodel.
  destruct (existsb (fun m => includes clientModel m) SUPPORTED_GEMINI_MODELS)
    eqn:Hsome; cbn [negb].
  - apply existsb_supported in Hsome. fold supported in Hsome. split; split.
    + reflexivity.
    + intros _. exact Hsome.
    + intros Hnot. contradiction.
    + intros [message Hthrow]. discriminate.
  - assert (Hnot : ~ supported).
    { intros Hsup. apply existsb_supported in Hsup. congruence. }
    split; split.
    + intros Hsup. contradiction.
    + discriminate.
    + intros _. eexists. reflexivity.
    + intros _. exact Hnot.
Qed.

(** The default model is a supported one: a throw always names a model. *)
Lemma createProvider_default (Source : Type) (source : Source) :
  createProvider None source
  = inr {| id := "google"; legacyModel := "google/gemini-1.5-flash"; source := source |}.
Proof. reflexivity. Qed.

(** *** [postProcess] *)

Lemma stripLeading_suffix (isNoise : ascii -> bool) (s : string) :
  exists noise, s = noise +:+ stripLeading isNoise s.
Proof.
  induction s as [|c s [noise IH]]; simpl.
  - now exists "".
  - destruct (isNoise c).
    + exists (String c noise). simpl. now rewrite <- IH.
    + now exists "".
Qed.

Lemma stripLeading_keeps (isNoise : ascii -> bool) (c : ascii) (s : string) :
  isNoise c = false -> stripLeading isNoise (String c s) = String c s.
Proof. intros H. simpl. now rewrite H. Qed.

Lemma prefix_nil (s : string) : String.prefix "" s = true.
Proof. now destruct s. Qed.

Lemma prefix_weaken (p x y : string) :
  String.prefix p x = true -> String.prefix p (x +:+ y) = true.
Proof.
  intros [rest ->]%prefix_spec. rewrite app_assoc. apply prefix_app.
Qed.

(** A pattern that begins a concatenation either begins its first part or
    runs over the end of it. *)
Lemma prefix_app_cases (p x y : string) :
  String.prefix p (x +:+ y) = true ->
  String.prefix p x = true
  \/ exists c over, p = x +:+ String c over /\ String.prefix (String c over) y = true.
Proof.
  revert p. induction x as [|d x IH]; intros p Hp.
  - destruct p as [|c over]; [left; reflexivity | right].
    now exists c, over.
  - destruct p as [|c p]; [left; reflexivity |].
    apply prefix_spec in Hp as [rest Hp]. cbn [String.append] in Hp.
    injection Hp as <- Hp.
    assert (Htail : String.prefix p (x +:+ y) = true)
      by (apply prefix_spec; now exists rest).
    destruct (IH p Htail) as [Hx | (c & over & -> & Hover)].
    + left. apply prefix_spec in Hx as [rest' ->].
      apply prefix_spec. now exists rest'.
    + right. now exists c, over.
Qed.

Lemma includes_prefix (s sub : string) :
  includes s sub = false -> String.prefix sub s = false.
Proof.
  destruct s; cbn [includes]; now destruct (String.prefix sub _).
Qed.

Lemma includes_tail (pre s sub : string) :
  includes (pre +:+ s) sub = false -> includes s sub = false.
Proof.
  intros Hno. destruct (includes s sub) eqn:Hs; [| reflexivity].
  apply includes_spec in Hs as (before & after & ->).
  assert (Hyes : includes (pre +:+ before +:+ sub +:+ after) sub = true).
  { apply includes_spec. exists (pre +:+ before), after. now rewrite app_assoc. }
  congruence.
Qed.

(** The markers begin with [<] and have no other. *)
Lemma markerString_shape (m : Marker) :
  exists body, markerString m = String ltSign body /\ occurs ltSign body = false.
Proof. destruct m; eexists; split; reflexivity. Qed.

(** A marker that begins in a stretch of text does not run into the mark
    behind it: what it matches is text. *)
Lemma prefix_over_marks (m : Marker) (chunks : list Chunk) (x : string) :
  x <> "" ->
  String.prefix (markerString m) (x +:+ flatten chunks) = true ->
  String.prefix (markerString m) (x +:+ textOf chunks) = true.
Proof.
  revert x. induction chunks as [|[t | m'] chunks IH]; intros x Hx Hp.
  - exact Hp.
  - cbn [flatten textOf chunkString] in *. rewrite <- app_assoc in *.
    apply IH; [| exact Hp]. destruct x; [congruence | discriminate].
  - cbn [flatten textOf chunkString] in *.
    apply prefix_app_cases in Hp as [Hin | (c & over & Hsplit & Hover)].
    + now apply prefix_weaken.
    + exfalso. destruct x as [|d x]; [congruence |].
      destruct (markerString_shape m) as (body & Hm & Hbody).
      destruct (markerString_shape m') as (body' & Hm' & _).
      rewrite Hm in Hsplit. rewrite Hm' in Hover.
      apply prefix_spec in Hover as [rest Hover]. cbn [String.append] in Hover.
      injection Hover as <- _. cbn [String.append] in Hsplit.
      injection Hsplit as _ ->. rewrite occurs_app in Hbody. cbn [occurs] in Hbody.
      rewrite Ascii.eqb_refl in Hbody. cbn in Hbody.
      now rewrite orb_true_r in Hbody.
Qed.

(** The scan copies a stretch of text in which, together with the text
    behind it, the marker does not occur. *)
Lemma replaceAllFrom_text_chunk (m : Marker) (chunks : list Chunk) (t : string) :
  includes (t +:+ textOf chunks) (markerString m) = false ->
  replaceAllFrom (markerString m) "" 0 (t +:+ flatten chunks)
  = t +:+ replaceAllFrom (markerString m) "" 0 (flatten chunks).
Proof.
  induction t as [|c t IH]; intros Hno; [reflexivity |].
  cbn [String.append] in *. cbn [replaceAllFrom].
  assert (Hhere : String.prefix (markerString m) (String c (t +:+ flatten chunks))
                  = false).
  { destruct (String.prefix (markerString m) (String c (t +:+ flatten chunks)))
      eqn:Hp; [| reflexivity].
    apply (prefix_over_marks m chunks (String c t)) in Hp; [| discriminate].
    apply includes_prefix in Hno. cbn [String.append] in Hp. congruence. }
  rewrite Hhere. f_equal. apply IH.
  cbn [includes] in Hno. now destruct (String.prefix (markerString m) _).
Qed.

(** The scan copies a whole marker of the other kind. *)
Lemma replaceAllFrom_other_mark (m m' : Marker) (rest : string) :
  sameMarker m m' = false ->
  replaceAllFrom (markerString m) "" 0 (markerString m' +:+ rest)
  = markerString m' +:+ replaceAllFrom (markerString m) "" 0 rest.
Proof.
  destruct m, m'; try discriminate; intros _; reflexivity.
Qed.

(** One scan for a marker erases the marks of its kind and nothing else,
    when the marker does not occur in the text between the marks. *)
Lemma replaceAll_without (m : Marker) (chunks : list Chunk) :
  includes (textOf chunks) (markerString m) = false ->
  replaceAll (flatten chunks) (markerString m) "" = flatten (without m chunks).
Proof.
  assert (Hscan : replaceAll (flatten chunks) (markerString m) ""
                  = replaceAllFrom (markerString m) "" 0 (flatten chunks))
    by now destruct m.
  rewrite Hscan. clear Hscan.
  induction chunks as [|[t | m'] chunks IH]; intros Hno; [reflexivity | |].
  - cbn [flatten textOf without chunkString] in *.
    rewrite (replaceAllFrom_text_chunk m chunks t Hno).
    now rewrite IH by exact (includes_tail _ _ _ Hno).
  - cbn [flatten textOf without chunkString] in *.
    destruct (sameMarker m m') eqn:Hsame.
    + assert (m' = m) as -> by now destruct m, m'.
      destruct (markerString_shape m) as (body & Hm & _).
      rewrite Hm at 2. rewrite Hm at 1. rewrite replaceAllFrom_match.
      rewrite <- Hm. cbn [String.append]. now apply IH.
    + rewrite (replaceAllFrom_other_mark m m' _ Hsame).
      cbn [flatten chunkString]. now rewrite IH.
Qed.

Lemma textOf_without (m : Marker) (chunks : list Chunk) :
  textOf (without m chunks) = textOf chunks.
Proof.
  induction chunks as [|[t | m'] chunks IH]; cbn [without textOf].
  - reflexivity.
  - now rewrite IH.
  - now destruct (sameMarker m m').
Qed.

Lemma flatten_without_both (chunks : list Chunk) :
  flatten (without SuffixMarker (without ResponseMarker chunks)) = textOf chunks.
Proof.
  induction chunks as [|[t | []] chunks IH]; cbn; now rewrite ?IH.
Qed.

(** The two scans of [postProcess] leave the text between the marks. *)
Lemma replaceAll_both_textOf (chunks : list Chunk) :
  includes (textOf chunks) (Response MARKERS) = false ->
  includes (textOf chunks) (Suffix MARKERS) = false ->
  replaceAll (replaceAll (flatten chunks) (Response MARKERS) "") (Suffix MARKERS) ""
  = textOf chunks.
Proof.
  intros HnoResponse HnoSuffix.
  change (Response MARKERS) with (markerString ResponseMarker).
  change (Suffix MARKERS) with (markerString SuffixMarker).
  rewrite (replaceAll_without ResponseMarker chunks HnoResponse).
  rewrite (replaceAll_without SuffixMarker (without ResponseMarker chunks))
    by (now rewrite textOf_without).
  apply flatten_without_both.
Qed.

(** A marker split by a nested marker survives the scan: the first
    [replaceAll] removes the inner marker and joins the two halves. *)
Lemma postProcess_nested_marker (fixBadCompletionStart : string -> string) :
  postProcess fixBadCompletionStart "<|fi<|fim|>m|>"
  = fixBadCompletionStart "<|fim|>".
Proof. reflexivity. Qed.

(** C9, as stated, fails: on the raw output [<|fi<|fim|>m|>] the result of
    [postProcess] is the response marker itself. *)
Lemma postProcess_keeps_nested_marker :
  postProcess (stripLeading isNoiseChar) "<|fi<|fim|>m|>" = Response MARKERS
  /\ includes (postProcess (stripLeading isNoiseChar) "<|fi<|fim|>m|>")
       (Response MARKERS) = true.
Proof. split; reflexivity. Qed.

(** The suffix marker can be left behind in the same way, and removing a
    suffix marker can put a response marker together. *)
Lemma postProcess_keeps_joined_markers :
  postProcess (stripLeading isNoiseChar) "<|suf<|suffix|>fix|>" = Suffix MARKERS
  /\ postProcess (stripLeading isNoiseChar) "<|f<|suffix|>im|>" = Response MARKERS.
Proof. split; reflexivity. Qed.

(** C9, amended: when the raw output is made of stretches of text and
    whole markers, and the text that is left once those markers are erased
    contains neither marker (no marker is split by another one), and
    [fixBadCompletionStart] only removes characters from the start, the
    result of [postProcess] contains neither the response marker nor the
    suffix marker: it is that text, with its start fixed.  The text may
    hold any characters, [<] among them. *)
Theorem postProcess_strips_markers
    (fixBadCompletionStart : string -> string)
    (rawResponse : string) (chunks : list Chunk) :
  (forall s, exists noise, s = noise +:+ fixBadCompletionStart s) ->
  rawResponse = flatten chunks ->
  includes (textOf chunks) (Response MARKERS) = false ->
  includes (textOf chunks) (Suffix MARKERS) = false ->
  includes (postProcess fixBadCompletionStart rawResponse) (Response MARKERS) = false
  /\ includes (postProcess fixBadCompletionStart rawResponse) (Suffix MARKERS) = false
  /\ postProcess fixBadCompletionStart rawResponse
     = fixBadCompletionStart (textOf chunks).
Proof.
  intros Hfix -> HnoResponse HnoSuffix. unfold postProcess.
  rewrite (replaceAll_both_textOf chunks HnoResponse HnoSuffix).
  destruct (Hfix (textOf chunks)) as [noise Hnoise].
  rewrite Hnoise in HnoResponse, HnoSuffix.
  split; [exact (includes_tail _ _ _ HnoResponse) |].
  split; [exact (includes_tail _ _ _ HnoSuffix) | reflexivity].
Qed.

Lemma postProcess_strips_markers_witness :
  let chunks :=
    [Mark ResponseMarker; Text "- if (a < b) {"; Mark ResponseMarker;
     Mark SuffixMarker] in
  (forall s, exists noise, s = noise +:+ stripLeading isNoiseChar s)
  /\ "<|fim|>- if (a < b) {<|fim|><|suffix|>" = flatten chunks
  /\ includes (textOf chunks) (Response MARKERS) = false
  /\ includes (textOf chunks) (Suffix MARKERS) = false
  /\ includes
       (postProcess (stripLeading isNoiseChar) "<|fim|>- if (a < b) {<|fim|><|suffix|>")
       (Response MARKERS) = false
  /\ includes
       (postProcess (stripLeading isNoiseChar) "<|fim|>- if (a < b) {<|fim|><|suffix|>")
       (Suffix MARKERS) = false
  /\ postProcess (stripLeading isNoiseChar) "<|fim|>- if (a < b) {<|fim|><|suffix|>"
     = stripLeading isNoiseChar (textOf chunks).
Proof.
  intros chunks.
  split; [apply stripLeading_suffix |].
  split; [reflexivity |]. split; [reflexivity |]. split; [reflexivity |].
  exact (postProcess_strips_markers (stripLeading isNoiseChar)
           "<|fim|>- if (a < b) {<|fim|><|suffix|>" chunks
           (stripLeading_suffix isNoiseChar) eq_refl eq_refl eq_refl).
Defined.

(** *** [createPrompt] *)

Section PromptFacts.

Variable messagesToText : list Message -> string.
Variable PrefixComponents : Type.
Variable getHeadAndTail : string -> PrefixComponents.

(** [emptyPromptLength] is ten less than the size of the prompt that
    [createPrompt] builds from no snippets, whatever [promptChars] is. *)
Lemma emptyPromptLength_createPrompt (promptChars : Z)
    (options : GenerateCompletionsOptions) :
  emptyPromptLength messagesToText PrefixComponents getHeadAndTail options
  = (promptLength messagesToText
       (createPrompt messagesToText PrefixComponents getHeadAndTail
          promptChars options []) - 10)%Z.
Proof. reflexivity. Qed.

(** The test of the loop compares each block with the same bound: what has
    been packed so far is not charged.  So a list of blocks that fit one by
    one is packed whole. *)
Lemma packSnippets_fit_one_by_one (promptChars : Z)
    (options : GenerateCompletionsOptions)
    (snippets : list AutocompleteContextSnippet) (groupedSnippets : string) :
  Forall (fun snippet =>
            (len (contextPrompt snippet) + 1
             <= promptChars
                - emptyPromptLength messagesToText PrefixComponents getHeadAndTail options)%Z
            /\ len (contextPrompt snippet) <> 0%Z) snippets ->
  packSnippets messagesToText PrefixComponents getHeadAndTail
    promptChars options snippets groupedSnippets
  = groupedSnippets +:+ joinBlocks snippets.
Proof.
  intros Hfit. revert groupedSnippets.
  induction Hfit as [|snippet rest [Hle Hne] _ IH]; intros groupedSnippets.
  - simpl. now rewrite app_nil_r.
  - cbn [packSnippets joinBlocks fold_right].
    replace (len (contextPrompt snippet) + 1
             >? promptChars
                - emptyPromptLength messagesToText PrefixComponents getHeadAndTail options)%Z
      with false by (symmetry; rewrite Z.gtb_ltb; apply Z.ltb_ge; lia).
    replace (len (contextPrompt snippet) =? 0)%Z with false
      by (symmetry; now apply Z.eqb_neq).
    cbn [orb]. rewrite IH. now rewrite app_assoc.
Qed.

End PromptFacts.

Lemma len_humanText (options : GenerateCompletionsOptions) (groupedSnippets : string) :
  len (humanText options groupedSnippets)
  = (len (humanText options "") + len groupedSnippets)%Z.
Proof. unfold humanText. rewrite !len_app. change (len "") with 0%Z. lia. Qed.

(** With the turns rendered one after the other, the packed blocks and their
    [Context:] frame come on top of the prompt without snippets. *)
Lemma promptLength_renderMessages (humanPrompt aiPrompt : string)
    (options : GenerateCompletionsOptions) (groupedSnippets : string) :
  len (renderMessages humanPrompt aiPrompt (buildMessages options groupedSnippets))
  = (len (renderMessages humanPrompt aiPrompt (buildMessages options ""))
     + len (wrapSnippets groupedSnippets))%Z.
Proof.
  unfold renderMessages, buildMessages. cbn [fold_right speaker text].
  rewrite !len_app, (len_humanText options (wrapSnippets groupedSnippets)).
  change (wrapSnippets "") with "". lia.
Qed.

(** C1: the budget is exceeded.  Take [sampleOptions], a budget [promptChars]
    that leaves 100 characters beyond the prompt without snippets, and three
    copies of [sampleSnippet], whose block has 40 characters.  Each block
    passes the test of the loop, all three are packed, and the prompt is 30
    characters longer than [promptChars]. *)
Theorem createPrompt_exceeds_promptChars
    (humanPrompt aiPrompt : string)
    (PrefixComponents : Type) (getHeadAndTail : string -> PrefixComponents) :
  let messagesToText := renderMessages humanPrompt aiPrompt in
  let fixedLength :=
    promptLength messagesToText
      (createPrompt messagesToText PrefixComponents getHeadAndTail 0 sampleOptions []) in
  let promptChars := (fixedLength + 100)%Z in
  let prompt :=
    createPrompt messagesToText PrefixComponents getHeadAndTail promptChars
      sampleOptions [sampleSnippet; sampleSnippet; sampleSnippet] in
  promptLength messagesToText prompt = (promptChars + 30)%Z
  /\ (promptLength messagesToText prompt >? promptChars)%Z = true.
Proof.
  intros messagesToText fixedLength promptChars prompt.
  assert (Hlen : promptLength messagesToText prompt = (promptChars + 30)%Z).
  { unfold prompt, createPrompt, promptLength. cbn [messages].
    rewrite packSnippets_fit_one_by_one.
    - unfold messagesToText. rewrite promptLength_renderMessages.
      unfold promptChars, fixedLength, createPrompt, promptLength. cbn [messages packSnippets].
      change (len (wrapSnippets ("" +:+ joinBlocks [sampleSnippet; sampleSnippet; sampleSnippet])))
        with 130%Z.
      fold messagesToText. lia.
    - rewrite (emptyPromptLength_createPrompt _ _ _ 0).
      fold fixedLength. unfold promptChars.
      assert (Hblock : len (contextPrompt sampleSnippet) = 40%Z) by reflexivity.
      repeat (apply List.Forall_cons; [rewrite Hblock; split; lia |]).
      apply List.Forall_nil. }
  split; [exact Hlen |]. rewrite Hlen, Z.gtb_ltb. apply Z.ltb_lt. lia.
Qed.

End GeminiFacts.

(** ** The BFG retriever *)

Module BfgFacts.
Import Js Bfg JsFacts.
Local Open Scope bfg_scope.

(** *** Rules for [preserves] *)

Section Preserves.

Context {A B : Type} (I : BfgRetriever -> Prop).

Lemma preserves_ret (a : A) : preserves I (ret a).
Proof. intros s Hs. exact Hs. Qed.

Lemma preserves_throw (e : Error) : preserves I (@throw A e).
Proof. intros s Hs. exact Hs. Qed.

Lemma preserves_await (p : Outcome A) : preserves I (await p).
Proof. intros s Hs. exact Hs. Qed.

Lemma preserves_sync (r : Error + A) : preserves I (sync r).
Proof. destruct r; [apply preserves_throw | apply preserves_ret]. Qed.

Lemma preserves_bind (m : M A) (k : A -> M B) :
  preserves I m -> (forall a, preserves I (k a)) -> preserves I (bind m k).
Proof.
  intros Hm Hk s Hs. unfold bind. specialize (Hm s Hs).
  destruct (m s) as [[a|e|] s']; simpl in *; auto. now apply Hk.
Qed.

Lemma preserves_tryCatch (m : M A) (h : Error -> M A) :
  preserves I m -> (forall e, preserves I (h e)) -> preserves I (tryCatch m h).
Proof.
  intros Hm Hh s Hs. unfold tryCatch. specialize (Hm s Hs).
  destruct (m s) as [[a|e|] s']; simpl in *; auto. now apply Hh.
Qed.

End Preserves.

Lemma preserves_get (I : BfgRetriever -> Prop) : preserves I get.
Proof. intros s Hs. exact Hs. Qed.

Lemma preserves_modify (I : BfgRetriever -> Prop) (f : BfgRetriever -> BfgRetriever) :
  (forall s, I s -> I (f s)) -> preserves I (modify f).
Proof. intros Hf s Hs. now apply Hf. Qed.

Lemma preserves_forEach {A} (I : BfgRetriever -> Prop) (l : list A) (body : A -> M unit) :
  (forall x, preserves I (body x)) -> preserves I (forEach l body).
Proof.
  intros Hbody. induction l as [|x l IH]; simpl.
  - apply preserves_ret.
  - apply preserves_bind; auto.
Qed.

Lemma preserves_mapM {A B} (I : BfgRetriever -> Prop) (f : A -> M B) (l : list A) :
  (forall x, preserves I (f x)) -> preserves I (mapM f l).
Proof.
  intros Hf. induction l as [|x l IH]; simpl.
  - apply preserves_ret.
  - apply preserves_bind; [auto |]. intros y.
    apply preserves_bind; [auto |]. intros ys. apply preserves_ret.
Qed.

(** A handler that returns makes [try]/[catch] total on throws. *)
Lemma tryCatch_ret_no_throw {A} (m : M A) (a : A) (s : BfgRetriever) :
  match fst (tryCatch m (fun _ => ret a) s) with
  | Throw _ => False
  | _ => True
  end.
Proof. unfold tryCatch. now destruct (m s) as [[b|e|] s']. Qed.

Lemma tryCatch_ret_caught {A} (m : M A) (a : A) (s : BfgRetriever) (e : Error) :
  fst (m s) = Throw e -> fst (tryCatch m (fun _ => ret a) s) = Return a.
Proof. unfold tryCatch. destruct (m s) as [[b|e'|] s']; simpl; congruence. Qed.

(** Reading the reply touches nothing of the retriever. *)
Lemma getProp_preserves (I : BfgRetriever -> Prop) v name :
  preserves I (getProp v name).
Proof. destruct v; first [apply preserves_throw | apply preserves_ret]. Qed.

Lemma readReply_preserves (I : BfgRetriever -> Prop)
    (uriFrom : string -> JsValue -> Error + JsValue) (retrieverIdentifier : string)
    (response : JsValue) :
  preserves I (readReply uriFrom retrieverIdentifier response).
Proof.
  unfold readReply. destruct (negb (typeofObject response)); [apply preserves_ret |].
  apply preserves_bind.
  - unfold convertSymbols. apply preserves_bind; [apply getProp_preserves |].
    intros symbols.
    destruct (if truthy symbols then symbols else JArr []);
      try apply preserves_throw.
    apply preserves_mapM. intros contextSnippet. unfold convertSnippet.
    apply preserves_bind; [apply getProp_preserves |].
    intros fileName. apply preserves_bind; [apply preserves_sync |].
    intros u. apply preserves_ret.
  - intros symbols. apply preserves_bind; [| intros x; apply preserves_ret].
    apply preserves_mapM. intros snippet. unfold describeSymbol.
    apply preserves_bind; [apply getProp_preserves |]. intros symbol.
    apply preserves_bind; [apply getProp_preserves |]. intros content.
    destruct (toStringThrows symbol || toStringThrows content);
      [apply preserves_throw | apply preserves_ret].
Qed.

(** *** The identifiers of the context query *)

Lemma fold_setAdd_fresh (l seen : list SymbolRequest) :
  NoDup (map ref (seen ++ l)) -> fold_left setAdd l seen = (seen ++ l)%list.
Proof.
  revert seen. induction l as [|x l IH]; intros seen Hnd; simpl.
  - now rewrite List.app_nil_r.
  - assert (Hx : existsb (fun y => Nat.eqb (ref y) (ref x)) seen = false).
    { apply not_true_is_false. intros (y & Hy & Heq)%existsb_exists.
      apply Nat.eqb_eq in Heq.
      rewrite map_app in Hnd. simpl in Hnd.
      apply NoDup_app in Hnd as (_ & Hdisj & _).
      apply (Hdisj (ref y)).
      - apply list_elem_of_In, in_map, Hy.
      - rewrite Heq. left. }
    unfold setAdd at 2. rewrite Hx.
    rewrite IH; rewrite <- List.app_assoc; [reflexivity | exact Hnd].
Qed.

(** Separate objects are never merged by the set, whatever their names. *)
Lemma newSet_separate_objects (l : list SymbolRequest) :
  NoDup (map ref l) -> newSet l = l.
Proof. intros Hnd. unfold newSet. now rewrite fold_setAdd_fresh. Qed.

Lemma inputIdentifiers_separate_objects
    (fromString : nat -> string -> string -> string -> list SymbolRequest)
    (fromDocument : nat -> TextDocument -> Position -> list SymbolRequest)
    (o : ContextRetrieverOptions) (source : string) :
  let a := fromString 10 (documentUri (document o)) (languageId (document o)) source in
  let b := fromDocument 10 (document o) (position o) in
  NoDup (map ref (a ++ b)) ->
  map symbolName (inputIdentifiers fromString fromDocument o source)
  = (map symbolName a ++ map symbolName b)%list.
Proof.
  intros a b Hnd. unfold inputIdentifiers. fold a b.
  now rewrite newSet_separate_objects, map_app.
Qed.

(** The same object twice is kept once. *)
Example newSet_same_object (x : SymbolRequest) : newSet [x; x] = [x].
Proof. unfold newSet. cbn. unfold setAdd at 1. cbn. now rewrite Nat.eqb_refl. Qed.

(** Without a last candidate, the line handed to the extractor is the
    text [undefined]. *)
Example lastCandidateCurrentLine_none :
  lastCandidateCurrentLine None = inr "undefined".
Proof. reflexivity. Qed.

(** C2: on the specification's example, with the two sources as the
    separate objects that two extractor calls return, the set keeps both
    objects named [bar]: the query carries [foo, bar, bar, baz], where the
    union of the names is [foo, bar, baz]. *)
Theorem contextQuery_repeats_identifier (o : ContextRetrieverOptions) (source : string) :
  let fromString := fun (_ : nat) (_ _ _ : string) => sourceA in
  let fromDocument := fun (_ : nat) (_ : TextDocument) (_ : Position) => sourceB in
  map symbolName (inputIdentifiers fromString fromDocument o source)
  = ["foo"; "bar"; "bar"; "baz"]
  /\ lookupField "identifiers"
       (match params (contextQuery fromString fromDocument o source) with
        | JObj fields => fields
        | _ => []
        end)
     = JArr [JStr "foo"; JStr "bar"; JStr "bar"; JStr "baz"]
  /\ unionOfNames (map symbolName sourceA) (map symbolName sourceB)
     = ["foo"; "bar"; "baz"].
Proof. intros fromString fromDocument. repeat split. Qed.

(** *** Every request is one of the five *)

Section Requests.

Variable spawnBfg : Outcome unit.
Variable engine : list Rpc -> Rpc -> Outcome JsValue.
Variable isAlive : list Rpc -> bool.
Variable inferGitRepository : string -> Outcome (option SimpleRepository).
Variable fromString : nat -> string -> string -> string -> list SymbolRequest.
Variable fromDocument : nat -> TextDocument -> Position -> list SymbolRequest.
Variable uriFrom : string -> JsValue -> Error + JsValue.
Variable retrieverIdentifier : string.

Lemma request_wellFormed (method : string) (params : JsValue) :
  wellFormedRequest {| method := method; params := params |} ->
  preserves allWellFormed (request engine method params).
Proof.
  intros Hq s Hs. unfold allWellFormed, request in *. simpl.
  apply Forall_app. split; [exact Hs |]. now apply List.Forall_cons.
Qed.

Lemma withRevisions_wellFormed m s :
  allWellFormed s -> allWellFormed (withRevisions m s).
Proof. intros H. exact H. Qed.

Lemma indexEntry_wellFormed repository workspace :
  preserves allWellFormed (indexEntry engine repository workspace).
Proof.
  unfold indexEntry.
  assert (Hbody : preserves allWellFormed
            (s <- get ;;
             await (loadedBFG s) ;;;
             tryCatch
               ((match repository with
                 | Some r =>
                     request engine "bfg/gitRevision/didChange"
                       (JObj [("gitDirectoryUri", JStr (uri r))]) ;;; ret tt
                 | None => ret tt
                 end) ;;;
                (match workspace with
                 | Some w =>
                     request engine "bfg/workspace/didChange"
                       (JObj [("workspaceUri", JStr w)]) ;;; ret tt
                 | None => ret tt
                 end))
               (fun _ => ret tt))).
  { apply preserves_bind; [apply preserves_get |]. intros s.
    apply preserves_bind; [apply preserves_await |]. intros _.
    apply preserves_tryCatch; [| intros e; apply preserves_ret].
    apply preserves_bind.
    - destruct repository as [r|]; [| apply preserves_ret].
      apply preserves_bind; [| intros v; apply preserves_ret].
      apply request_wellFormed. right. left. simpl. eauto.
    - intros _. destruct workspace as [w|]; [| apply preserves_ret].
      apply preserves_bind; [| intros v; apply preserves_ret].
      apply request_wellFormed. right. right. left. simpl. eauto. }
  destruct repository, workspace; try exact Hbody. apply preserves_ret.
Qed.

Lemma didChangeSimpleRepository_wellFormed repository :
  preserves allWellFormed (didChangeSimpleRepository engine repository).
Proof.
  unfold didChangeSimpleRepository.
  apply preserves_bind; [apply preserves_get |]. intros s.
  destruct (strictNeq _ _); [| apply preserves_ret].
  apply preserves_bind; [| intros _; apply indexEntry_wellFormed].
  apply preserves_modify. intros s' Hs'. exact Hs'.
Qed.

Lemma didChangeGitExtensionRepository_wellFormed repository :
  preserves allWellFormed (didChangeGitExtensionRepository engine repository).
Proof.
  unfold didChangeGitExtensionRepository.
  destruct (headCommit repository) as [c|]; [| apply preserves_ret].
  destruct (String.eqb c ""); [apply preserves_ret |].
  apply didChangeSimpleRepository_wellFormed.
Qed.

Lemma indexInferredGitRepositories_wellFormed ws :
  preserves allWellFormed
    (indexInferredGitRepositories engine inferGitRepository ws).
Proof.
  unfold indexInferredGitRepositories.
  destruct (negb (indexParentGitFolder ws)); [apply preserves_ret |].
  apply preserves_forEach. intros folder.
  apply preserves_bind; [apply preserves_get |]. intros s.
  destruct (bool_decide _); [apply preserves_ret |].
  apply preserves_bind; [apply preserves_await |]. intros [r|].
  - apply didChangeSimpleRepository_wellFormed.
  - apply preserves_ret.
Qed.

Lemma indexWorkspace_wellFormed ws :
  preserves allWellFormed (indexWorkspace engine inferGitRepository ws).
Proof.
  unfold indexWorkspace. apply preserves_bind.
  - unfold indexGitRepositories.
    destruct (gitRepositories ws) as [repositories|]; [| apply preserves_ret].
    apply preserves_bind; [| intros _; apply indexInferredGitRepositories_wellFormed].
    apply preserves_forEach. intros r. apply didChangeGitExtensionRepository_wellFormed.
  - intros _. unfold indexRemainingWorkspaceFolders.
    apply preserves_forEach. intros folder.
    apply preserves_bind; [apply preserves_get |]. intros s.
    destruct (isWorkspaceIndexed _ _); [apply preserves_ret |].
    apply indexEntry_wellFormed.
Qed.

Lemma contextQuery_wellFormed o source :
  wellFormedRequest (contextQuery fromString fromDocument o source).
Proof.
  right. right. right. left. split; [reflexivity |]. cbn [params contextQuery].
  exists (documentUri (document o)),
    (map symbolName (inputIdentifiers fromString fromDocument o source)), 20%Z, 4%Z.
  now rewrite map_map.
Qed.

Lemma retrieve_wellFormed o :
  preserves allWellFormed
    (retrieve engine isAlive fromString fromDocument uriFrom retrieverIdentifier o).
Proof.
  unfold retrieve. apply preserves_tryCatch; [| intros e; apply preserves_ret].
  apply preserves_bind; [apply preserves_get |]. intros s.
  destruct (didFailLoading s); [apply preserves_ret |].
  apply preserves_bind; [apply preserves_await |]. intros _.
  apply preserves_bind; [apply preserves_get |]. intros s'.
  destruct (negb (isAlive (requests s'))); [apply preserves_ret |].
  apply preserves_bind.
  { destruct (awaitIndexing s'); [apply preserves_await | apply preserves_ret]. }
  intros _. apply preserves_bind; [apply preserves_sync |]. intros source.
  apply preserves_bind.
  { apply request_wellFormed.
    destruct (contextQuery fromString fromDocument o source) as [m p] eqn:Hq.
    rewrite <- Hq. apply contextQuery_wellFormed. }
  intros response. apply readReply_preserves.
Qed.

Lemma dispose_wellFormed : preserves allWellFormed (dispose engine).
Proof.
  unfold dispose. apply preserves_bind; [apply preserves_get |]. intros s.
  destruct (didFailLoading s); [apply preserves_ret |].
  destruct (loadedBFG s); try apply preserves_ret.
  intros s' Hs'. cbn [snd].
  apply (request_wellFormed "bfg/shutdown" JNull); [| exact Hs'].
  do 4 right. now split.
Qed.

Lemma step_wellFormed op :
  preserves allWellFormed
    (step engine isAlive inferGitRepository fromString fromDocument
       uriFrom retrieverIdentifier op).
Proof.
  destruct op as [o|r|ws|]; cbn [step];
    (apply preserves_bind; [| intros x; apply preserves_ret]).
  - apply retrieve_wellFormed.
  - apply didChangeGitExtensionRepository_wellFormed.
  - apply indexInferredGitRepositories_wellFormed.
  - apply dispose_wellFormed.
Qed.

Lemma run_preserves (I : BfgRetriever -> Prop) ops :
  (forall op,
     preserves I
       (step engine isAlive inferGitRepository fromString fromDocument
          uriFrom retrieverIdentifier op)) ->
  forall s, I s ->
  I (snd (run engine isAlive inferGitRepository fromString fromDocument
            uriFrom retrieverIdentifier ops s)).
Proof.
  intros Hstep. induction ops as [|op ops IH]; intros s Hs; cbn [run].
  - exact Hs.
  - specialize (Hstep op s Hs).
    destruct (step _ _ _ _ _ _ _ op s) as [r s'].
    specialize (IH s' Hstep).
    destruct (run _ _ _ _ _ _ _ ops s') as [rs s'']. exact IH.
Qed.

Lemma construct_wellFormed ws :
  allWellFormed (construct spawnBfg engine inferGitRepository ws).
Proof.
  unfold construct.
  assert (Hload : allWellFormed (snd (doLoadBFG spawnBfg engine (blank ws)))).
  { assert (Hp : preserves allWellFormed (doLoadBFG spawnBfg engine)).
    { unfold doLoadBFG.
      apply preserves_bind; [apply preserves_modify; intros s Hs; exact Hs |].
      intros _. apply preserves_bind; [apply preserves_await |]. intros _.
      apply preserves_bind; [| intros v; apply preserves_ret].
      apply request_wellFormed. left. simpl. eauto. }
    apply Hp. apply List.Forall_nil. }
  destruct (doLoadBFG spawnBfg engine (blank ws)) as [loaded s1]. cbn [snd] in Hload.
  pose proof (indexWorkspace_wellFormed ws
                (withLoadedBFG loaded (isThrow loaded) s1) Hload) as Hindex.
  destruct (indexWorkspace engine inferGitRepository ws
              (withLoadedBFG loaded (isThrow loaded) s1)) as [indexing s3].
  exact Hindex.
Qed.

(** C3, amended: every request that a session sends to the engine, from the
    constructor on and through any sequence of operations, has one of the
    method names [bfg/initialize], [bfg/gitRevision/didChange],
    [bfg/workspace/didChange], [bfg/contextForIdentifiers] and [bfg/shutdown],
    with the payload of that method: [{clientName}], [{gitDirectoryUri}],
    [{workspaceUri}], [{uri, identifiers, maxSnippets, maxDepth}] with a list
    of strings and two integers, and [null]. *)
Theorem requests_use_bfg_methods (ws : Workspace) (ops : list Op) :
  Forall wellFormedRequest
    (requests
       (snd (run engine isAlive inferGitRepository fromString fromDocument
               uriFrom retrieverIdentifier ops
               (construct spawnBfg engine inferGitRepository ws)))).
Proof.
  apply (run_preserves allWellFormed ops step_wellFormed).
  apply construct_wellFormed.
Qed.

End Requests.

(** C3, as stated, fails: the constructor's handshake goes out under the
    name [bfg/initialize], which is none of the [engine/...] names. *)
Lemma handshake_method_not_specified :
  let s :=
    construct (Return tt) (fun _ _ => Return JNull) (fun _ => Return None)
      {| workspaceFolders := None; gitRepositories := None;
         indexParentGitFolder := false; awaitIndexingSetting := false |} in
  map method (requests s) = ["bfg/initialize"]
  /\ existsb (fun q => negb (existsb (String.eqb (method q)) specifiedMethods))
       (requests s) = true.
Proof. split; reflexivity. Qed.

(** *** A failed load is final *)

Section Failure.

Variable spawnBfg : Outcome unit.
Variable engine : list Rpc -> Rpc -> Outcome JsValue.
Variable isAlive : list Rpc -> bool.
Variable inferGitRepository : string -> Outcome (option SimpleRepository).
Variable fromString : nat -> string -> string -> string -> list SymbolRequest.
Variable fromDocument : nat -> TextDocument -> Position -> list SymbolRequest.
Variable uriFrom : string -> JsValue -> Error + JsValue.
Variable retrieverIdentifier : string.

(** The flag alone decides: [retrieve] returns before it awaits anything. *)
Lemma retrieve_failed o s :
  didFailLoading s = true ->
  retrieve engine isAlive fromString fromDocument uriFrom retrieverIdentifier o s
  = (Return [], s).
Proof. intros H. unfold retrieve, tryCatch, bind, get. cbn. now rewrite H. Qed.

Lemma dispose_failed s :
  didFailLoading s = true -> dispose engine s = (Return tt, s).
Proof. intros H. unfold dispose, bind, get. cbn. now rewrite H. Qed.

(** [indexEntry] awaits the load before its [try]: after a failed load it
    throws, and sends nothing. *)
Lemma indexEntry_failed repository workspace s :
  (exists e, loadedBFG s = Throw e) ->
  snd (indexEntry engine repository workspace s) = s.
Proof.
  intros [e He]. unfold indexEntry, bind, get, await.
  destruct repository, workspace; cbn; rewrite ?He; reflexivity.
Qed.

Lemma didChangeSimpleRepository_failed sent n repository :
  preserves (failedWith sent n) (didChangeSimpleRepository engine repository).
Proof.
  unfold didChangeSimpleRepository.
  apply preserves_bind; [apply preserves_get |]. intros s.
  destruct (strictNeq _ _); [| apply preserves_ret].
  apply preserves_bind.
  - apply preserves_modify. intros s' Hs'. exact Hs'.
  - intros _ s' Hs'. rewrite indexEntry_failed; [exact Hs' | apply Hs'].
Qed.

Lemma didChangeGitExtensionRepository_failed sent n repository :
  preserves (failedWith sent n) (didChangeGitExtensionRepository engine repository).
Proof.
  unfold didChangeGitExtensionRepository.
  destruct (headCommit repository) as [c|]; [| apply preserves_ret].
  destruct (String.eqb c ""); [apply preserves_ret |].
  apply didChangeSimpleRepository_failed.
Qed.

Lemma indexInferredGitRepositories_failed sent n ws :
  preserves (failedWith sent n)
    (indexInferredGitRepositories engine inferGitRepository ws).
Proof.
  unfold indexInferredGitRepositories.
  destruct (negb (indexParentGitFolder ws)); [apply preserves_ret |].
  apply preserves_forEach. intros folder.
  apply preserves_bind; [apply preserves_get |]. intros s.
  destruct (bool_decide _); [apply preserves_ret |].
  apply preserves_bind; [apply preserves_await |]. intros [r|].
  - apply didChangeSimpleRepository_failed.
  - apply preserves_ret.
Qed.

Lemma indexWorkspace_failed sent n ws :
  preserves (failedWith sent n) (indexWorkspace engine inferGitRepository ws).
Proof.
  unfold indexWorkspace. apply preserves_bind.
  - unfold indexGitRepositories.
    destruct (gitRepositories ws) as [repositories|]; [| apply preserves_ret].
    apply preserves_bind; [| intros _; apply indexInferredGitRepositories_failed].
    apply preserves_forEach. intros r. apply didChangeGitExtensionRepository_failed.
  - intros _. unfold indexRemainingWorkspaceFolders.
    apply preserves_forEach. intros folder.
    apply preserves_bind; [apply preserves_get |]. intros s.
    destruct (isWorkspaceIndexed _ _); [apply preserves_ret |].
    intros s' Hs'. rewrite indexEntry_failed; [exact Hs' | apply Hs'].
Qed.

Lemma step_failed sent n op :
  preserves (failedWith sent n)
    (step engine isAlive inferGitRepository fromString fromDocument
       uriFrom retrieverIdentifier op).
Proof.
  destruct op as [o|r|ws|]; cbn [step];
    (apply preserves_bind; [| intros x; apply preserves_ret]).
  - intros s Hs. rewrite retrieve_failed; [exact Hs | apply Hs].
  - apply didChangeGitExtensionRepository_failed.
  - apply indexInferredGitRepositories_failed.
  - intros s Hs. rewrite dispose_failed; [exact Hs | apply Hs].
Qed.

(** The constructor after a failed spawn or handshake: one spawn, and at
    most the handshake on the channel. *)
Lemma construct_failed ws :
  (exists e, spawnBfg = Throw e
             \/ (spawnBfg = Return tt /\ engine [] initializeRequest = Throw e)) ->
  exists sent,
    failedWith sent 1 (construct spawnBfg engine inferGitRepository ws)
    /\ (sent = [] \/ sent = [initializeRequest]).
Proof.
  intros [e Hfail]. unfold construct.
  assert (Hload : exists sent,
            (sent = [] \/ sent = [initializeRequest])
            /\ doLoadBFG spawnBfg engine (blank ws)
               = (Throw e, withRequests sent (withSpawned 1 (blank ws)))).
  { unfold doLoadBFG, bind, modify, await, request. cbn.
    destruct Hfail as [-> | [-> Hinit]].
    - exists []. split; [now left | reflexivity].
    - exists [initializeRequest]. split; [now right |].
      fold initializeRequest. now rewrite Hinit. }
  destruct Hload as (sent & Hsent & ->). exists sent. split; [| exact Hsent].
  pose proof (indexWorkspace_failed sent 1 ws
                (withLoadedBFG (Throw e) (isThrow (@Throw unit e))
                   (withRequests sent (withSpawned 1 (blank ws))))) as Hindex.
  destruct (indexWorkspace engine inferGitRepository ws _) as [indexing s3].
  cbn [snd] in Hindex.
  assert (Hs3 : failedWith sent 1 s3).
  { apply Hindex. repeat split. now exists e. }
  exact Hs3.
Qed.

(** C4: when the spawn or the handshake fails, then after any sequence of
    operations a [retrieve] returns the empty list on its first check with
    the state unchanged, so without any request; no request has been sent
    since the constructor, whose only possible request is the failed
    handshake; the process has been spawned once; and the failure flag is
    still set. *)
Theorem failed_startup_is_sticky
    (ws : Workspace) (ops : list Op) (o : ContextRetrieverOptions) :
  (exists e, spawnBfg = Throw e
             \/ (spawnBfg = Return tt /\ engine [] initializeRequest = Throw e)) ->
  let s0 := construct spawnBfg engine inferGitRepository ws in
  let s := snd (run engine isAlive inferGitRepository fromString fromDocument
                  uriFrom retrieverIdentifier ops s0) in
  retrieve engine isAlive fromString fromDocument uriFrom retrieverIdentifier o s
  = (Return [], s)
  /\ requests s = requests s0
  /\ (requests s0 = [] \/ requests s0 = [initializeRequest])
  /\ spawned s = 1
  /\ didFailLoading s = true.
Proof.
  intros Hfail s0 s.
  destruct (construct_failed ws Hfail) as (sent & Hs0 & Hsent). fold s0 in Hs0.
  assert (Hs : failedWith sent 1 s).
  { apply (run_preserves engine isAlive inferGitRepository fromString fromDocument
             uriFrom retrieverIdentifier (failedWith sent 1) ops); [| exact Hs0].
    intros op. apply step_failed. }
  destruct Hs0 as (_ & _ & Hsent0 & _). destruct Hs as (Hflag & _ & Hreq & Hspawn).
  split; [now apply retrieve_failed |].
  rewrite Hreq, Hsent0. auto.
Qed.

End Failure.

Lemma failed_startup_is_sticky_witness :
  let spawnBfg := @Throw unit (MkError "spawn ENOENT") in
  let engine := fun (_ : list Rpc) (_ : Rpc) => Return (JObj []) in
  let isAlive := fun _ : list Rpc => true in
  let inferGitRepository := fun _ : string => @Return (option SimpleRepository) None in
  let fromString := fun (_ : nat) (_ _ _ : string) => sourceA in
  let fromDocument := fun (_ : nat) (_ : TextDocument) (_ : Position) => sourceB in
  let uriFrom := fun (_ : string) (path : JsValue) => @inr Error JsValue path in
  let ops := [Retrieve sampleRetrieve;
              DidOpenRepository {| rootUri := "/repo"; headCommit := Some "def" |};
              DidChangeWorkspaceFolders sampleWorkspace; Dispose] in
  let s0 := construct spawnBfg engine inferGitRepository sampleWorkspace in
  let s := snd (run engine isAlive inferGitRepository fromString fromDocument
                  uriFrom "bfg" ops s0) in
  (exists e, spawnBfg = Throw e
             \/ (spawnBfg = Return tt /\ engine [] initializeRequest = Throw e))
  /\ retrieve engine isAlive fromString fromDocument uriFrom "bfg" sampleRetrieve s
     = (Return [], s)
  /\ requests s = requests s0
  /\ (requests s0 = [] \/ requests s0 = [initializeRequest])
  /\ spawned s = 1
  /\ didFailLoading s = true.
Proof.
  intros spawnBfg engine isAlive inferGitRepository fromString fromDocument
    uriFrom ops s0 s.
  assert (Hfail : exists e, spawnBfg = Throw e
             \/ (spawnBfg = Return tt /\ engine [] initializeRequest = Throw e)).
  { exists (MkError "spawn ENOENT"). now left. }
  split; [exact Hfail |].
  exact (failed_startup_is_sticky spawnBfg engine isAlive inferGitRepository
           fromString fromDocument uriFrom "bfg" sampleWorkspace ops sampleRetrieve
           Hfail).
Defined.

(** *** [retrieve] degrades to no context *)

Section Retrieval.

Variable engine : list Rpc -> Rpc -> Outcome JsValue.
Variable isAlive : list Rpc -> bool.
Variable fromString : nat -> string -> string -> string -> list SymbolRequest.
Variable fromDocument : nat -> TextDocument -> Position -> list SymbolRequest.
Variable uriFrom : string -> JsValue -> Error + JsValue.
Variable retrieverIdentifier : string.

Lemma convertSnippet_settles contextSnippet s :
  (exists v, convertSnippet uriFrom retrieverIdentifier contextSnippet s = (Return v, s))
  \/ (exists e, convertSnippet uriFrom retrieverIdentifier contextSnippet s = (Throw e, s)).
Proof.
  unfold convertSnippet, bind, getProp, sync, ret, throw.
  destruct contextSnippet; cbn; eauto;
    match goal with
    | |- context [uriFrom ?a ?b] => destruct (uriFrom a b); cbn; eauto
    end.
Qed.

Lemma convertSnippet_null contextSnippet s :
  contextSnippet = JNull \/ contextSnippet = JUndefined ->
  convertSnippet uriFrom retrieverIdentifier contextSnippet s = (Throw typeError, s).
Proof. intros [-> | ->]; reflexivity. Qed.

Lemma mapM_convertSnippet_throws l s :
  In JNull l \/ In JUndefined l ->
  exists e, mapM (convertSnippet uriFrom retrieverIdentifier) l s = (Throw e, s).
Proof.
  intros Hin. induction l as [|x l IH]; [destruct Hin as [[]|[]] |].
  cbn [mapM]. unfold bind at 1.
  destruct (convertSnippet_settles x s) as [[v Hv] | [e He]].
  - rewrite Hv.
    assert (Hrest : In JNull l \/ In JUndefined l).
    { destruct Hin as [[->|H]|[->|H]]; auto;
        rewrite convertSnippet_null in Hv by auto; discriminate. }
    destruct (IH Hrest) as [e He]. exists e. unfold bind. now rewrite He.
  - rewrite He. now exists e.
Qed.

(** A malformed reply makes the conversion end the [try] block with the
    empty list or with a throw. *)
Lemma malformed_no_symbols response s :
  malformed response ->
  fst (readReply uriFrom retrieverIdentifier response s) = Return []
  \/ exists e, fst (readReply uriFrom retrieverIdentifier response s) = Throw e.
Proof.
  intros [Htype | [-> | [(fields & -> & Htruthy & Harr) | (fields & l & -> & Hl & Hin)]]].
  - unfold readReply. rewrite Htype. now left.
  - right. now exists typeError.
  - right. unfold readReply, convertSymbols, bind, getProp, ret. cbn. rewrite Htruthy.
    destruct (lookupField "symbols" fields) as [| | b | n | str | arr | obj] eqn:Hsym;
      cbn; eauto.
    now destruct (Harr arr).
  - right. unfold readReply, convertSymbols, bind, getProp, ret. cbn. rewrite Hl. cbn.
    destruct (mapM_convertSnippet_throws l s Hin) as [e He]. exists e. now rewrite He.
Qed.

(** [retrieve] past its gates: the request goes out, and the [catch]
    turns a failed request or a throwing conversion into the empty list. *)
Lemma retrieve_at_query o s source :
  reachesQuery isAlive o s source ->
  let q := contextQuery fromString fromDocument o source in
  let s1 := withRequests (requests s ++ [q]) s in
  retrieve engine isAlive fromString fromDocument uriFrom retrieverIdentifier o s
  = match engine (requests s) q with
    | Return response =>
        tryCatch (readReply uriFrom retrieverIdentifier response)
          (fun _ => ret []) s1
    | Throw e => (Return [], s1)
    | Pending => (Pending, s1)
    end.
Proof.
  intros (Hflag & Hload & Halive & Hindex & Hline) q s1.
  unfold retrieve, tryCatch, bind, get, await. cbn. rewrite Hflag, Hload. cbn.
  rewrite Halive. cbn.
  destruct (awaitIndexing s); [rewrite Hindex by reflexivity |];
    cbn; rewrite Hline; cbn; subst q s1; unfold contextQuery;
    match goal with
    | |- context [engine ?r ?q] => destruct (engine r q); reflexivity
    end.
Qed.

Lemma retrieve_degraded o s :
  degraded engine isAlive fromString fromDocument o s ->
  fst (retrieve engine isAlive fromString fromDocument uriFrom retrieverIdentifier o s)
  = Return [].
Proof.
  intros [Hflag | [[e He] | [[Hload Halive] | (source & Hreach & Hreply)]]].
  - now rewrite retrieve_failed.
  - unfold retrieve, tryCatch, bind, get, await. cbn.
    destruct (didFailLoading s); [reflexivity |]. now rewrite He.
  - unfold retrieve, tryCatch, bind, get, await. cbn.
    destruct (didFailLoading s); [reflexivity |]. rewrite Hload. cbn.
    now rewrite Halive.
  - rewrite (retrieve_at_query o s source Hreach). cbv zeta.
    destruct Hreply as [[e He] | (response & Hresp & Hbad)].
    + now rewrite He.
    + rewrite Hresp.
      destruct (malformed_no_symbols response
                  (withRequests
                     (requests s ++ [contextQuery fromString fromDocument o source]) s)
                  Hbad) as [Hnil | [e He]].
      * unfold tryCatch.
        destruct (readReply uriFrom retrieverIdentifier response _)
          as [[l|e|] s']; cbn in *; congruence.
      * now apply tryCatch_ret_caught with (e := e).
Qed.

(** C5: [retrieve] never throws; and when the load has failed, the process
    is not alive, the request fails or its reply is malformed, it returns the
    empty list. *)
Theorem retrieve_never_throws (o : ContextRetrieverOptions) (s : BfgRetriever) :
  isThrow
    (fst (retrieve engine isAlive fromString fromDocument uriFrom
            retrieverIdentifier o s)) = false
  /\ (degraded engine isAlive fromString fromDocument o s ->
      fst (retrieve engine isAlive fromString fromDocument uriFrom
             retrieverIdentifier o s) = Return []).
Proof.
  split; [| apply retrieve_degraded].
  unfold retrieve.
  match goal with
  | |- isThrow (fst (tryCatch ?m ?h s)) = false =>
      pose proof (tryCatch_ret_no_throw m [] s) as H;
      destruct (fst (tryCatch m h s)); [reflexivity | destruct H | reflexivity]
  end.
Qed.

End Retrieval.

(** *** The revision map *)

Section Indexing.

Variable engine : list Rpc -> Rpc -> Outcome JsValue.

Lemma strictNeq_false (a b : option string) : strictNeq a b = false <-> a = b.
Proof.
  unfold strictNeq. rewrite negb_false_iff. apply bool_decide_eq_true.
Qed.

Lemma strictNeq_true (a b : option string) : strictNeq a b = true <-> a <> b.
Proof.
  unfold strictNeq. rewrite negb_true_iff. apply bool_decide_eq_false.
Qed.

(** [indexEntry] for a repository: the map is left alone, and one request
    goes out when the engine is loaded, none otherwise. *)
Lemma indexEntry_repository repository s :
  indexedRepositoryRevisions (snd (indexEntry engine (Some repository) None s))
  = indexedRepositoryRevisions s
  /\ (requests (snd (indexEntry engine (Some repository) None s)) = requests s
      \/ requests (snd (indexEntry engine (Some repository) None s))
         = (requests s ++ [gitRevisionDidChange (uri repository)])%list).
Proof.
  unfold indexEntry, tryCatch, bind, get, await, request. cbn.
  destruct (loadedBFG s); cbn; auto.
  fold (gitRevisionDidChange (uri repository)).
  destruct (engine (requests s) (gitRevisionDidChange (uri repository))); cbn; auto.
Qed.

(** With the engine loaded the request goes out, once, whatever comes back;
    a failed request is swallowed. *)
Lemma indexEntry_repository_loaded repository s :
  loadedBFG s = Return tt ->
  let q := gitRevisionDidChange (uri repository) in
  snd (indexEntry engine (Some repository) None s)
  = withRequests (requests s ++ [q]) s
  /\ (forall e, engine (requests s) q = Throw e ->
      fst (indexEntry engine (Some repository) None s) = Return tt).
Proof.
  intros Hload q. unfold indexEntry, tryCatch, bind, get, await, request. cbn.
  rewrite Hload. cbn. fold (gitRevisionDidChange (uri repository)). fold q.
  destruct (engine (requests s) q); cbn; split; try reflexivity; congruence.
Qed.

(** A changed commit: record it, then run [indexEntry]. *)
Lemma didChangeSimpleRepository_changed repository s :
  commit repository <> indexedRepositoryRevisions s !! uri repository ->
  didChangeSimpleRepository engine repository s
  = indexEntry engine (Some repository) None
      (withRevisions
         (<[uri repository := default "" (commit repository)]>
            (indexedRepositoryRevisions s)) s).
Proof.
  intros Hne. unfold didChangeSimpleRepository.
  remember (indexEntry engine (Some repository) None) as entry.
  unfold bind, get, modify. cbn.
  rewrite (proj2 (strictNeq_true _ _) Hne).
  now destruct (entry _) as [[[]|e|] s2].
Qed.

Lemma didChangeSimpleRepository_same repository s :
  commit repository = indexedRepositoryRevisions s !! uri repository ->
  didChangeSimpleRepository engine repository s = (Return tt, s).
Proof.
  intros Heq. unfold didChangeSimpleRepository, bind, get. cbn.
  now rewrite (proj2 (strictNeq_false _ _) Heq).
Qed.

(** What an observation does to the revision map: the observed commit is
    written under the repository's URI when it differs from the stored
    value, and the map is left alone otherwise. *)
Lemma didChangeSimpleRepository_revisions repository s :
  indexedRepositoryRevisions (snd (didChangeSimpleRepository engine repository s))
  = if strictNeq (commit repository) (indexedRepositoryRevisions s !! uri repository)
    then <[uri repository := default "" (commit repository)]>
           (indexedRepositoryRevisions s)
    else indexedRepositoryRevisions s.
Proof.
  destruct (strictNeq (commit repository)
              (indexedRepositoryRevisions s !! uri repository)) eqn:Hneq.
  - apply strictNeq_true in Hneq.
    rewrite (didChangeSimpleRepository_changed repository s Hneq).
    now destruct (indexEntry_repository repository
                    (withRevisions
                       (<[uri repository := default "" (commit repository)]>
                          (indexedRepositoryRevisions s)) s)) as [-> _].
  - apply strictNeq_false in Hneq.
    now rewrite (didChangeSimpleRepository_same repository s Hneq).
Qed.

(** Observations of other repositories leave an entry alone. *)
Lemma observations_elsewhere (key : string) (others : list SimpleRepository)
    (s : BfgRetriever) :
  Forall (fun other => uri other <> key) others ->
  indexedRepositoryRevisions
    (fold_left (fun st other => snd (didChangeSimpleRepository engine other st))
       others s) !! key
  = indexedRepositoryRevisions s !! key.
Proof.
  intros Hothers. revert s.
  induction Hothers as [|other others Hother _ IH]; intros s; [reflexivity |].
  cbn [fold_left]. rewrite IH, didChangeSimpleRepository_revisions.
  destruct (strictNeq _ _); [| reflexivity].
  now rewrite lookup_insert_ne.
Qed.

(** C6: observing a repository whose commit equals the stored one changes
    nothing and sends nothing; a [gitRevision/didChange] request goes out
    only when the observed commit differs from the stored one, and then,
    with the engine loaded, exactly one does. An observation that differs
    writes the observed commit into the map under the repository's URI, so
    that observing the same repository and commit again, at once or after
    observations of other repositories, changes nothing and sends nothing.
    A repository without a commit is recorded as the empty string, which
    its absent commit never equals: observed over a stored entry it is
    sent again each time. *)
Theorem revision_idempotence (repository : SimpleRepository) (s : BfgRetriever) :
  let stored := indexedRepositoryRevisions s !! uri repository in
  let s' := snd (didChangeSimpleRepository engine repository s) in
  let q := gitRevisionDidChange (uri repository) in
  (commit repository = stored ->
   didChangeSimpleRepository engine repository s = (Return tt, s))
  /\ (requests s' <> requests s -> commit repository <> stored)
  /\ (commit repository <> stored -> loadedBFG s = Return tt ->
      requests s' = (requests s ++ [q])%list)
  /\ (requests s' = requests s \/ requests s' = (requests s ++ [q])%list)
  /\ (commit repository <> stored ->
      indexedRepositoryRevisions s'
      = <[uri repository := default "" (commit repository)]>
          (indexedRepositoryRevisions s))
  /\ (forall c,
        commit repository = Some c ->
        indexedRepositoryRevisions s' !! uri repository = Some c
        /\ didChangeSimpleRepository engine repository s' = (Return tt, s')
        /\ forall others,
             Forall (fun other => uri other <> uri repository) others ->
             let s2 :=
               fold_left
                 (fun st other => snd (didChangeSimpleRepository engine other st))
                 others s' in
             didChangeSimpleRepository engine repository s2 = (Return tt, s2))
  /\ (commit repository = None -> stored <> None -> loadedBFG s = Return tt ->
      indexedRepositoryRevisions s' !! uri repository = Some ""
      /\ requests (snd (didChangeSimpleRepository engine repository s'))
         = (requests s ++ [q; q])%list).
Proof.
  intros stored s' q. subst stored.
  assert (Hmap : forall c, commit repository = Some c ->
                   indexedRepositoryRevisions s' !! uri repository = Some c).
  { intros c Hc. unfold s'. rewrite didChangeSimpleRepository_revisions.
    destruct (strictNeq _ _) eqn:Hneq.
    - rewrite lookup_insert_eq, Hc. reflexivity.
    - apply strictNeq_false in Hneq. now rewrite <- Hneq. }
  assert (Hchanged : commit repository
                     <> indexedRepositoryRevisions s !! uri repository ->
                     loadedBFG s = Return tt ->
                     s' = withRequests (requests s ++ [q])
                            (withRevisions
                               (<[uri repository := default "" (commit repository)]>
                                  (indexedRepositoryRevisions s)) s)).
  { intros Hne Hload. unfold s'.
    rewrite (didChangeSimpleRepository_changed repository s Hne).
    now destruct (indexEntry_repository_loaded repository
                    (withRevisions
                       (<[uri repository := default "" (commit repository)]>
                          (indexedRepositoryRevisions s)) s) Hload) as [-> _]. }
  split; [apply didChangeSimpleRepository_same |]. split; [| split; [| split; [| split; [| split]]]].
  - intros Hsent Heq. apply Hsent. unfold s'.
    now rewrite didChangeSimpleRepository_same.
  - intros Hne Hload. now rewrite (Hchanged Hne Hload).
  - destruct (decide (commit repository
                      = indexedRepositoryRevisions s !! uri repository))
      as [Heq | Hne].
    + left. unfold s'. now rewrite didChangeSimpleRepository_same.
    + unfold s'. rewrite (didChangeSimpleRepository_changed repository s Hne).
      destruct (indexEntry_repository repository
                  (withRevisions
                     (<[uri repository := default "" (commit repository)]>
                        (indexedRepositoryRevisions s)) s)) as [_ [-> | ->]];
        [now left | now right].
  - intros Hne. unfold s'. rewrite didChangeSimpleRepository_revisions.
    now rewrite (proj2 (strictNeq_true _ _) Hne).
  - intros c Hc. split; [exact (Hmap c Hc) |]. split.
    + apply didChangeSimpleRepository_same. now rewrite (Hmap c Hc).
    + intros others Hothers s2. apply didChangeSimpleRepository_same.
      unfold s2. rewrite (observations_elsewhere _ _ _ Hothers).
      now rewrite (Hmap c Hc).
  - intros Hnone Hstored Hload.
    assert (Hne : commit repository
                  <> indexedRepositoryRevisions s !! uri repository)
      by (rewrite Hnone; congruence).
    assert (Hs' := Hchanged Hne Hload).
    assert (Hentry : indexedRepositoryRevisions s' !! uri repository = Some "").
    { rewrite Hs'. cbn. rewrite lookup_insert_eq, Hnone. reflexivity. }
    split; [exact Hentry |].
    assert (Hne' : commit repository
                   <> indexedRepositoryRevisions s' !! uri repository)
      by (rewrite Hnone, Hentry; discriminate).
    rewrite (didChangeSimpleRepository_changed repository s' Hne').
    assert (Hload' : loadedBFG s' = Return tt) by (rewrite Hs'; exact Hload).
    destruct (indexEntry_repository_loaded repository
                (withRevisions
                   (<[uri repository := default "" (commit repository)]>
                      (indexedRepositoryRevisions s')) s') Hload') as [-> _].
    cbn. rewrite Hs'. cbn. now rewrite <- List.app_assoc.
Qed.

(** Observing the same repository and commit a second time sends nothing,
    whatever the first observation did. *)
Lemma reobserve_same_commit (u c : string) (s : BfgRetriever) :
  let repository := {| uri := u; commit := Some c |} in
  let s1 := snd (didChangeSimpleRepository engine repository s) in
  didChangeSimpleRepository engine repository s1 = (Return tt, s1).
Proof.
  intros repository s1.
  apply didChangeSimpleRepository_same. cbn [commit uri repository].
  destruct (decide (Some c = indexedRepositoryRevisions s !! u)) as [Heq | Hne].
  - unfold s1. rewrite didChangeSimpleRepository_same by exact Heq. exact Heq.
  - unfold s1. rewrite didChangeSimpleRepository_changed by exact Hne.
    destruct (indexEntry_repository repository
                (withRevisions (<[u := c]> (indexedRepositoryRevisions s)) s))
      as [Hmap _].
    cbn [commit uri repository default from_option id] in *. rewrite Hmap. cbn.
    now rewrite lookup_insert_eq.
Qed.

(** C7: when the observed commit differs from the stored one, the map is
    updated first and [indexEntry] runs in the updated state; the map
    records the new commit however the request ends; and when the request
    fails the call still returns, with the updated map and the one request
    as its only changes. *)
Theorem revision_recorded_before_confirmation
    (repository : SimpleRepository) (s : BfgRetriever) :
  commit repository <> indexedRepositoryRevisions s !! uri repository ->
  let recorded :=
    withRevisions
      (<[uri repository := default "" (commit repository)]>
         (indexedRepositoryRevisions s)) s in
  let q := gitRevisionDidChange (uri repository) in
  didChangeSimpleRepository engine repository s
  = indexEntry engine (Some repository) None recorded
  /\ indexedRepositoryRevisions (snd (didChangeSimpleRepository engine repository s))
       !! uri repository
     = Some (default "" (commit repository))
  /\ (forall e,
        loadedBFG s = Return tt ->
        engine (requests s) q = Throw e ->
        didChangeSimpleRepository engine repository s
        = (Return tt, withRequests (requests s ++ [q]) recorded)).
Proof.
  intros Hne recorded q.
  assert (Hrun : didChangeSimpleRepository engine repository s
                 = indexEntry engine (Some repository) None recorded)
    by now apply didChangeSimpleRepository_changed.
  split; [exact Hrun |]. rewrite Hrun. split.
  - destruct (indexEntry_repository repository recorded) as [Hmap _].
    rewrite Hmap. unfold recorded. cbn. apply lookup_insert_eq.
  - intros e Hload Hthrow.
    destruct (indexEntry_repository_loaded repository recorded Hload) as [Hsnd Hfst].
    specialize (Hfst e Hthrow).
    destruct (indexEntry engine (Some repository) None recorded) as [r s2].
    cbn [fst snd] in *. now subst.
Qed.

End Indexing.

Lemma revision_recorded_before_confirmation_witness :
  let engine := fun (_ : list Rpc) (_ : Rpc) => @Throw JsValue (MkError "EPIPE") in
  let s :=
    {| loadedBFG := Return tt; bfgIndexingPromise := Return tt;
       awaitIndexing := false; didFailLoading := false;
       indexedRepositoryRevisions := {[ "/repo" := "abc" ]};
       requests := [initializeRequest]; spawned := 1 |} in
  let recorded := withRevisions (<["/repo" := "def"]> {[ "/repo" := "abc" ]}) s in
  commit sampleRepository <> indexedRepositoryRevisions s !! uri sampleRepository
  /\ didChangeSimpleRepository engine sampleRepository s
     = indexEntry engine (Some sampleRepository) None recorded
  /\ indexedRepositoryRevisions
       (snd (didChangeSimpleRepository engine sampleRepository s)) !! "/repo"
     = Some "def"
  /\ (forall e,
        loadedBFG s = Return tt ->
        engine (requests s) (gitRevisionDidChange "/repo") = Throw e ->
        didChangeSimpleRepository engine sampleRepository s
        = (Return tt,
           withRequests (requests s ++ [gitRevisionDidChange "/repo"]) recorded)).
Proof.
  intros engine s recorded.
  assert (Hne : commit sampleRepository
                <> indexedRepositoryRevisions s !! uri sampleRepository).
  { cbn. rewrite lookup_singleton_eq. discriminate. }
  split; [exact Hne |].
  exact (revision_recorded_before_confirmation engine sampleRepository s Hne).
Defined.

(** *** Workspace folders *)

Section Folders.

Variable engine : list Rpc -> Rpc -> Outcome JsValue.

Lemma isWorkspaceIndexed_spec (revisions : gmap string string) (folder : string) :
  isWorkspaceIndexed revisions folder = true
  <-> exists key rest,
        is_Some (revisions !! key) /\ folder = key +:+ rest.
Proof.
  unfold isWorkspaceIndexed, startsWith. rewrite existsb_exists. split.
  - intros (key & Hin & Hprefix).
    apply in_map_iff in Hin as ([k v] & <- & Hkv).
    apply list_elem_of_In, elem_of_map_to_list in Hkv.
    apply prefix_spec in Hprefix as [rest Hrest].
    exists k, rest. split; [now exists v | exact Hrest].
  - intros (key & rest & [v Hv] & ->).
    exists key. split; [| apply prefix_app].
    apply in_map_iff. exists (key, v). split; [reflexivity |].
    now apply list_elem_of_In, elem_of_map_to_list.
Qed.

(** [indexEntry] for a folder: the map is left alone, and at most the
    folder's own notification goes out. *)
Lemma indexEntry_workspace folder s :
  indexedRepositoryRevisions (snd (indexEntry engine None (Some folder) s))
  = indexedRepositoryRevisions s
  /\ exists sent,
       requests (snd (indexEntry engine None (Some folder) s))
       = (requests s ++ sent)%list
       /\ (sent = [] \/ sent = [workspaceDidChange folder]).
Proof.
  unfold indexEntry, tryCatch, bind, get, await, request. cbn.
  fold (workspaceDidChange folder).
  destruct (loadedBFG s); cbn.
  - destruct (engine (requests s) (workspaceDidChange folder)); cbn;
      (split; [reflexivity |]); exists [workspaceDidChange folder]; auto.
  - split; [reflexivity |]. exists (@nil Rpc). rewrite List.app_nil_r. auto.
  - split; [reflexivity |]. exists (@nil Rpc). rewrite List.app_nil_r. auto.
Qed.

(** The loop over the folders: the map is left alone, and every request it
    sends is the notification of a folder that is not indexed. *)
Lemma forEach_remaining_folders (folders : list string) (s : BfgRetriever) :
  let body := fun folder =>
    (s <- get ;;
     if isWorkspaceIndexed (indexedRepositoryRevisions s) folder then ret tt
     else indexEntry engine None (Some folder))%bfg in
  indexedRepositoryRevisions (snd (forEach folders body s))
  = indexedRepositoryRevisions s
  /\ exists sent,
       requests (snd (forEach folders body s)) = (requests s ++ sent)%list
       /\ Forall (fun q => exists folder,
                    q = workspaceDidChange folder
                    /\ isWorkspaceIndexed (indexedRepositoryRevisions s) folder = false)
            sent.
Proof.
  intros body. revert s. induction folders as [|folder folders IH]; intros s.
  - cbn. split; [reflexivity |]. exists (@nil Rpc).
    split; [now rewrite List.app_nil_r | apply List.Forall_nil].
  - cbn [forEach]. unfold bind.
    assert (Hbody : indexedRepositoryRevisions (snd (body folder s))
                    = indexedRepositoryRevisions s
                    /\ exists sent,
                         requests (snd (body folder s)) = (requests s ++ sent)%list
                         /\ (sent = []
                             \/ (sent = [workspaceDidChange folder]
                                 /\ isWorkspaceIndexed (indexedRepositoryRevisions s)
                                      folder = false))).
    { unfold body, bind, get. cbn.
      destruct (isWorkspaceIndexed (indexedRepositoryRevisions s) folder) eqn:Hidx.
      - cbn. split; [reflexivity |]. exists (@nil Rpc).
        split; [now rewrite List.app_nil_r | now left].
      - destruct (indexEntry_workspace folder s) as (Hmap & sent & Hsent & Hcases).
        split; [exact Hmap |]. exists sent. split; [exact Hsent |].
        destruct Hcases as [-> | ->]; auto. }
    destruct Hbody as (Hmap & sent & Hsent & Hcases).
    assert (Hfirst : Forall (fun q => exists f,
                       q = workspaceDidChange f
                       /\ isWorkspaceIndexed (indexedRepositoryRevisions s) f = false)
                       sent).
    { destruct Hcases as [-> | [-> Hidx]]; [apply List.Forall_nil |].
      apply List.Forall_cons; [eauto | apply List.Forall_nil]. }
    destruct (body folder s) as [[[]|e|] s1]; cbn beta iota; cbn [fst snd] in *.
    + destruct (IH s1) as (Hmap' & sent' & Hsent' & Hall).
      rewrite Hmap in Hmap', Hall.
      split; [exact Hmap' |]. exists (sent ++ sent')%list.
      split; [rewrite Hsent', Hsent; now rewrite List.app_assoc |].
      apply Forall_app. now split.
    + split; [exact Hmap |]. now exists sent.
    + split; [exact Hmap |]. now exists sent.
Qed.

(** C8: a folder is reported indexed exactly when some key of the revision
    map is a prefix of its URI; [indexRemainingWorkspaceFolders] sends no
    [workspace/didChange] for a folder that is reported indexed; and with
    [/repo] indexed, the folder [/repo/sub] is reported indexed and the
    method returns without a request. *)
Theorem workspace_indexed_by_prefix :
  (forall (revisions : gmap string string) (folder : string),
     isWorkspaceIndexed revisions folder = true
     <-> exists key rest, is_Some (revisions !! key) /\ folder = key +:+ rest)
  /\ (forall (ws : Workspace) (s : BfgRetriever) (folder : string),
        isWorkspaceIndexed (indexedRepositoryRevisions s) folder = true ->
        exists sent,
          requests (snd (indexRemainingWorkspaceFolders engine ws s))
          = (requests s ++ sent)%list
          /\ ~ In (workspaceDidChange folder) sent)
  /\ (forall (c : string) (s : BfgRetriever),
        indexedRepositoryRevisions s = {[ "/repo" := c ]} ->
        isWorkspaceIndexed (indexedRepositoryRevisions s) "/repo/sub" = true
        /\ indexRemainingWorkspaceFolders engine
             {| workspaceFolders := Some ["/repo/sub"]; gitRepositories := None;
                indexParentGitFolder := false; awaitIndexingSetting := false |} s
           = (Return tt, s)).
Proof.
  split; [exact isWorkspaceIndexed_spec |]. split.
  - intros ws s folder Hidx. unfold indexRemainingWorkspaceFolders.
    destruct (forEach_remaining_folders (default [] (workspaceFolders ws)) s)
      as (_ & sent & Hsent & Hall).
    exists sent. split; [exact Hsent |].
    intros Hin. rewrite List.Forall_forall in Hall.
    destruct (Hall _ Hin) as (f & Heq & Hnot).
    injection Heq as <-. congruence.
  - intros c s Hmap.
    assert (Hidx : isWorkspaceIndexed (indexedRepositoryRevisions s) "/repo/sub" = true).
    { apply isWorkspaceIndexed_spec. exists "/repo", "/sub".
      split; [| reflexivity]. rewrite Hmap, lookup_singleton_eq. now exists c. }
    split; [exact Hidx |].
    unfold indexRemainingWorkspaceFolders.
    cbn [workspaceFolders default from_option id forEach].
    unfold bind, get. now rewrite Hidx.
Qed.

End Folders.

End BfgFacts.

(** ** More on the Gemini provider *)

Module GeminiExtra.
Import Js Gemini JsFacts GeminiFacts.

(** *** Snippet blocks *)

Lemma trimEnd_allWhiteSpace (ws : string) : allWhiteSpace ws = true -> trimEnd ws = "".
Proof.
  induction ws as [|c ws IH]; [reflexivity |].
  cbn [allWhiteSpace trimEnd]. intros [Hc Hws]%andb_true_iff.
  now rewrite (IH Hws), Hc.
Qed.

Lemma trimEnd_app_allWhiteSpace (s ws : string) :
  allWhiteSpace ws = true -> trimEnd (s +:+ ws) = trimEnd s.
Proof.
  intros Hws. induction s as [|c s IH].
  - cbn. now apply trimEnd_allWhiteSpace.
  - cbn [String.append trimEnd]. now rewrite IH.
Qed.

(** X3: white space at the end of a snippet's content does not reach the
    prompt: the block of the content followed by white space is the block of
    the content. *)
Theorem createContext_ignores_trailing_space (type name content ws : string) :
  allWhiteSpace ws = true ->
  createContext type name (content +:+ ws) = createContext type name content.
Proof. intros Hws. unfold createContext. now rewrite trimEnd_app_allWhiteSpace. Qed.

Lemma createContext_ignores_trailing_space_witness :
  allWhiteSpace (" " +:+ nl) = true
  /\ createContext "symbol" "f" ("return 1;" +:+ " " +:+ nl)
     = createContext "symbol" "f" "return 1;".
Proof.
  split; [reflexivity |].
  exact (createContext_ignores_trailing_space "symbol" "f" "return 1;" (" " +:+ nl)
           eq_refl).
Defined.

Lemma len_nonneg (s : string) : (0 <= len s)%Z.
Proof. unfold len. lia. Qed.

Lemma len_contextPrompt (snippet : AutocompleteContextSnippet) :
  len (contextPrompt snippet)
  = (32
     + match symbol snippet with
       | Some sym => 6 + len sym
       | None => 4 + len (uri snippet)
       end
     + len (trimEnd (content snippet)))%Z.
Proof.
  unfold contextPrompt, createContext, len. rewrite !length_app.
  destruct (symbol snippet); cbn [String.length nl]; lia.
Qed.

Lemma len_contextPrompt_min (snippet : AutocompleteContextSnippet) :
  (36 <= len (contextPrompt snippet))%Z.
Proof.
  rewrite len_contextPrompt.
  pose proof (len_nonneg (trimEnd (content snippet))).
  destruct (symbol snippet) as [sym|].
  - pose proof (len_nonneg sym). lia.
  - pose proof (len_nonneg (uri snippet)). lia.
Qed.

Lemma fits_leb (remaining : Z) (snippet : AutocompleteContextSnippet) :
  fits remaining snippet = (len (contextPrompt snippet) + 1 <=? remaining)%Z.
Proof.
  pose proof (len_contextPrompt_min snippet). unfold fits.
  replace (len (contextPrompt snippet) =? 0)%Z with false
    by (symmetry; apply Z.eqb_neq; lia).
  rewrite orb_false_r, Z.gtb_ltb, <- Z.leb_antisym. reflexivity.
Qed.

(** X2: a block is never empty: it has the 32 characters of its frame, its
    kind, its name and its trimmed content.  So the emptiness test of the
    loop never stops the packing; a snippet is packed exactly when its block
    and one more character are within what is left of the budget. *)
Theorem contextPrompt_never_empty (remaining : Z)
    (snippet : AutocompleteContextSnippet) :
  (36 <= len (contextPrompt snippet))%Z
  /\ fits remaining snippet = (len (contextPrompt snippet) + 1 <=? remaining)%Z.
Proof. split; [apply len_contextPrompt_min | apply fits_leb]. Qed.

(** *** The packing loop *)

Section Packing.

Variable messagesToText : list Message -> string.
Variable PrefixComponents : Type.
Variable getHeadAndTail : string -> PrefixComponents.

Lemma packSnippets_leadingRun (promptChars : Z) (options : GenerateCompletionsOptions)
    (snippets : list AutocompleteContextSnippet) (groupedSnippets : string) :
  packSnippets messagesToText PrefixComponents getHeadAndTail
    promptChars options snippets groupedSnippets
  = groupedSnippets
    +:+ joinBlocks
          (leadingRun
             (fits (promptChars
                    - emptyPromptLength messagesToText PrefixComponents
                        getHeadAndTail options))
             snippets).
Proof.
  revert groupedSnippets. induction snippets as [|snippet rest IH]; intros acc.
  - cbn. now rewrite app_nil_r.
  - cbn [packSnippets leadingRun]. unfold fits at 1.
    destruct ((len (contextPrompt snippet) + 1
               >? promptChars
                  - emptyPromptLength messagesToText PrefixComponents
                      getHeadAndTail options)%Z
              || (len (contextPrompt snippet) =? 0)%Z); cbn [negb].
    + cbn. now rewrite app_nil_r.
    + rewrite IH. cbn [joinBlocks fold_right]. now rewrite app_assoc.
Qed.

Lemma leadingRun_stops {A} (p : A -> bool) (pre : list A) (bad : A) (rest : list A) :
  Forall (fun x => p x = true) pre -> p bad = false ->
  leadingRun p (pre ++ bad :: rest) = pre.
Proof.
  intros Hpre Hbad. induction Hpre as [|x pre Hx _ IH]; cbn.
  - now rewrite Hbad.
  - now rewrite Hx, IH.
Qed.

Lemma createPrompt_packs_leading_run_eq (promptChars : Z)
    (options : GenerateCompletionsOptions)
    (snippets : list AutocompleteContextSnippet) :
  messages (createPrompt messagesToText PrefixComponents getHeadAndTail
              promptChars options snippets)
  = buildMessages options
      (joinBlocks
         (leadingRun
            (fits (promptChars
                   - emptyPromptLength messagesToText PrefixComponents
                       getHeadAndTail options))
            snippets)).
Proof. unfold createPrompt. cbn [messages]. now rewrite packSnippets_leadingRun. Qed.

(** X1: the prompt carries the blocks of the longest leading run of
    snippets that each pass the test on their own, in order; the first
    snippet that fails ends the packing, and no later snippet is packed,
    whether it would pass or not. *)
Theorem createPrompt_packs_leading_run (promptChars : Z)
    (options : GenerateCompletionsOptions)
    (snippets : list AutocompleteContextSnippet) :
  let remaining :=
    (promptChars
     - emptyPromptLength messagesToText PrefixComponents getHeadAndTail options)%Z in
  messages (createPrompt messagesToText PrefixComponents getHeadAndTail
              promptChars options snippets)
  = buildMessages options (joinBlocks (leadingRun (fits remaining) snippets))
  /\ (forall pre bad rest,
        snippets = (pre ++ bad :: rest)%list ->
        Forall (fun snippet => fits remaining snippet = true) pre ->
        fits remaining bad = false ->
        messages (createPrompt messagesToText PrefixComponents getHeadAndTail
                    promptChars options snippets)
        = buildMessages options (joinBlocks pre)).
Proof.
  intros remaining.
  assert (Hrun : messages (createPrompt messagesToText PrefixComponents getHeadAndTail
                             promptChars options snippets)
                 = buildMessages options
                     (joinBlocks (leadingRun (fits remaining) snippets)))
    by apply createPrompt_packs_leading_run_eq.
  split; [exact Hrun |].
  intros pre bad rest -> Hpre Hbad. rewrite Hrun. now rewrite leadingRun_stops.
Qed.

End Packing.

Lemma fits_mono (small large : Z) (snippet : AutocompleteContextSnippet) :
  (small <= large)%Z -> fits small snippet = true -> fits large snippet = true.
Proof.
  intros Hle. rewrite !fits_leb, !Z.leb_le. lia.
Qed.

Lemma leadingRun_mono {A} (p q : A -> bool) (l : list A) :
  (forall x, p x = true -> q x = true) ->
  exists more, leadingRun q l = (leadingRun p l ++ more)%list.
Proof.
  intros Hpq. induction l as [|x l [more IH]]; cbn.
  - now exists [].
  - destruct (p x) eqn:Hp.
    + rewrite (Hpq x Hp), IH. now exists more.
    + now exists (if q x then x :: leadingRun q l else []).
Qed.

Lemma leadingRun_leading {A} (p : A -> bool) (l : list A) :
  exists rest, l = (leadingRun p l ++ rest)%list.
Proof.
  induction l as [|x l [rest IH]]; cbn.
  - now exists [].
  - destruct (p x).
    + exists rest. cbn. now rewrite <- IH.
    + now exists (x :: l).
Qed.

Lemma joinBlocks_app (l1 l2 : list AutocompleteContextSnippet) :
  joinBlocks (l1 ++ l2) = joinBlocks l1 +:+ joinBlocks l2.
Proof.
  unfold joinBlocks. induction l1 as [|x l1 IH]; cbn [fold_right List.app].
  - reflexivity.
  - rewrite IH. symmetry. apply app_assoc.
Qed.

(** X5: a larger [promptChars] never packs less. The snippets split into
    those [createPrompt] packs under the smaller budget, those it packs in
    addition under the larger one, and those it packs under neither; the
    text packed under the smaller budget starts the text packed under the
    larger one. *)
Theorem larger_budget_packs_more
    (messagesToText : list Message -> string) (PrefixComponents : Type)
    (getHeadAndTail : string -> PrefixComponents)
    (promptChars promptChars' : Z) (options : GenerateCompletionsOptions)
    (snippets : list AutocompleteContextSnippet) :
  (promptChars <= promptChars')%Z ->
  exists kept more rest,
    snippets = (kept ++ more ++ rest)%list
    /\ packSnippets messagesToText PrefixComponents getHeadAndTail
         promptChars options snippets ""
       = joinBlocks kept
    /\ packSnippets messagesToText PrefixComponents getHeadAndTail
         promptChars' options snippets ""
       = packSnippets messagesToText PrefixComponents getHeadAndTail
           promptChars options snippets ""
         +:+ joinBlocks more
    /\ messages (createPrompt messagesToText PrefixComponents getHeadAndTail
                   promptChars options snippets)
       = buildMessages options (joinBlocks kept)
    /\ messages (createPrompt messagesToText PrefixComponents getHeadAndTail
                   promptChars' options snippets)
       = buildMessages options (joinBlocks (kept ++ more)).
Proof.
  intros Hle.
  set (fixed := emptyPromptLength messagesToText PrefixComponents getHeadAndTail options).
  destruct (leadingRun_mono (fits (promptChars - fixed)) (fits (promptChars' - fixed))
              snippets) as [more Hmore].
  { intros snippet. apply fits_mono. lia. }
  destruct (leadingRun_leading (fits (promptChars' - fixed)) snippets) as [rest Hrest].
  exists (leadingRun (fits (promptChars - fixed)) snippets), more, rest.
  rewrite !createPrompt_packs_leading_run_eq, !packSnippets_leadingRun.
  fold fixed. rewrite Hmore, joinBlocks_app. cbn [String.append].
  repeat split; try reflexivity.
  rewrite List.app_assoc, <- Hmore. exact Hrest.
Qed.

Lemma larger_budget_packs_more_witness :
  (100 <= 1000)%Z
  /\ exists kept more rest,
       [sampleSnippet; sampleSnippet] = (kept ++ more ++ rest)%list
       /\ packSnippets (renderMessages "" "") unit (fun _ => tt)
            100 sampleOptions [sampleSnippet; sampleSnippet] ""
          = joinBlocks kept
       /\ packSnippets (renderMessages "" "") unit (fun _ => tt)
            1000 sampleOptions [sampleSnippet; sampleSnippet] ""
          = packSnippets (renderMessages "" "") unit (fun _ => tt)
              100 sampleOptions [sampleSnippet; sampleSnippet] ""
            +:+ joinBlocks more
       /\ messages (createPrompt (renderMessages "" "") unit (fun _ => tt)
                      100 sampleOptions [sampleSnippet; sampleSnippet])
          = buildMessages sampleOptions (joinBlocks kept)
       /\ messages (createPrompt (renderMessages "" "") unit (fun _ => tt)
                      1000 sampleOptions [sampleSnippet; sampleSnippet])
          = buildMessages sampleOptions (joinBlocks (kept ++ more)).
Proof.
  split; [lia |].
  exact (larger_budget_packs_more (renderMessages "" "") unit (fun _ => tt)
           100 1000 sampleOptions [sampleSnippet; sampleSnippet] ltac:(lia)).
Defined.

(** *** The size of the prompt *)

Lemma len_joinBlocks (snippets : list AutocompleteContextSnippet) :
  len (joinBlocks snippets) = blocksLength snippets.
Proof.
  induction snippets as [|snippet rest IH]; [reflexivity |].
  cbn [joinBlocks blocksLength fold_right]. rewrite len_app.
  fold (joinBlocks rest). fold (blocksLength rest). now rewrite IH.
Qed.

Lemma blocksLength_nonneg (snippets : list AutocompleteContextSnippet) :
  (0 <= blocksLength snippets)%Z.
Proof. rewrite <- len_joinBlocks. apply len_nonneg. Qed.

Lemma len_wrapSnippets (snippets : list AutocompleteContextSnippet) :
  len (wrapSnippets (joinBlocks snippets))
  = match snippets with
    | [] => 0%Z
    | _ => (10 + blocksLength snippets)%Z
    end.
Proof.
  destruct snippets as [|snippet rest]; [reflexivity |].
  unfold wrapSnippets.
  assert (Hpos : (0 < len (joinBlocks (snippet :: rest)))%Z).
  { rewrite len_joinBlocks. cbn [blocksLength fold_right].
    fold (blocksLength rest).
    pose proof (len_contextPrompt_min snippet).
    pose proof (blocksLength_nonneg rest). lia. }
  rewrite (proj2 (Z.ltb_lt _ _) Hpos), !len_app, len_joinBlocks.
  change (len "Context:") with 8%Z. change (len nl) with 1%Z. lia.
Qed.

Lemma leadingRun_Forall {A} (p : A -> bool) (l : list A) :
  Forall (fun x => p x = true) (leadingRun p l).
Proof.
  induction l as [|x l IH]; cbn; [apply List.Forall_nil |].
  destruct (p x) eqn:Hp; [now apply List.Forall_cons | apply List.Forall_nil].
Qed.

(** X4: with the turns rendered one after the other, the prompt is as long
    as the prompt without snippets when nothing is packed, and otherwise 10
    characters, for the [Context:] frame, plus the characters of the packed
    blocks longer.  Each packed block has at most [promptChars] minus the
    length of the prompt without snippets plus 9 characters. *)
Theorem promptLength_of_createPrompt
    (humanPrompt aiPrompt : string)
    (PrefixComponents : Type) (getHeadAndTail : string -> PrefixComponents)
    (promptChars : Z) (options : GenerateCompletionsOptions)
    (snippets : list AutocompleteContextSnippet) :
  let messagesToText := renderMessages humanPrompt aiPrompt in
  let fixed :=
    promptLength messagesToText
      (createPrompt messagesToText PrefixComponents getHeadAndTail
         promptChars options []) in
  let packed := leadingRun (fits (promptChars - (fixed - 10))) snippets in
  promptLength messagesToText
    (createPrompt messagesToText PrefixComponents getHeadAndTail
       promptChars options snippets)
  = (fixed + match packed with
             | [] => 0
             | _ => 10 + blocksLength packed
             end)%Z
  /\ Forall (fun snippet =>
               (len (contextPrompt snippet) <= promptChars - fixed + 9)%Z) packed.
Proof.
  intros messagesToText fixed packed. split.
  - unfold promptLength.
    rewrite (createPrompt_packs_leading_run_eq messagesToText PrefixComponents
               getHeadAndTail promptChars options snippets).
    unfold messagesToText at 1. rewrite promptLength_renderMessages.
    rewrite (emptyPromptLength_createPrompt messagesToText PrefixComponents
               getHeadAndTail promptChars). fold fixed. fold packed.
    now rewrite len_wrapSnippets.
  - pose proof (leadingRun_Forall (fits (promptChars - (fixed - 10))) snippets) as Hall.
    fold packed in Hall. eapply Forall_impl; [exact Hall |].
    intros snippet Hfit. cbn beta in Hfit.
    rewrite fits_leb in Hfit. apply Z.leb_le in Hfit. lia.
Qed.

(** *** [postProcess] on output without nested markers *)

Lemma replaceAllFrom_text (c : ascii) (pat repl text rest : string) :
  occurs c text = false ->
  replaceAllFrom (String c pat) repl 0 (text +:+ rest)
  = text +:+ replaceAllFrom (String c pat) repl 0 rest.
Proof.
  induction text as [|d text IH]; [reflexivity |].
  cbn [occurs String.append]. intros [Hd Htext]%orb_false_iff.
  rewrite replaceAllFrom_other.
  - now rewrite IH.
  - intros ->. now rewrite Ascii.eqb_refl in Hd.
Qed.

Lemma replaceAllFrom_no_match (c : ascii) (pat repl text : string) :
  occurs c text = false ->
  replaceAllFrom (String c pat) repl 0 text = text.
Proof.
  intros Htext. rewrite <- (app_nil_r text) at 1.
  rewrite replaceAllFrom_text by exact Htext. cbn. apply app_nil_r.
Qed.

(** X6: for a completion [body] without the character [<],
    [postProcess] returns [fixBadCompletionStart body] when it is given
    [body] alone, [body] enclosed in response markers, or [body] between a
    response marker and a suffix marker; the markers are removed and nothing
    else is. *)
Theorem postProcess_unwraps_completion
    (fixBadCompletionStart : string -> string) (body : string) :
  occurs ltSign body = false ->
  postProcess fixBadCompletionStart body = fixBadCompletionStart body
  /\ postProcess fixBadCompletionStart
       (Response MARKERS +:+ body +:+ Response MARKERS)
     = fixBadCompletionStart body
  /\ postProcess fixBadCompletionStart
       (Response MARKERS +:+ body +:+ Suffix MARKERS)
     = fixBadCompletionStart body.
Proof.
  intros Hbody. unfold postProcess, replaceAll. cbn [Response Suffix MARKERS].
  assert (Hfim : forall rest,
            replaceAllFrom "<|fim|>" "" 0 ("<|fim|>" +:+ body +:+ rest)
            = body +:+ replaceAllFrom "<|fim|>" "" 0 rest).
  { intros rest. rewrite replaceAllFrom_match.
    change ltSign with "<"%char in Hbody. cbn [String.append].
    now rewrite replaceAllFrom_text. }
  change ltSign with "<"%char in Hbody.
  repeat split.
  - rewrite (replaceAllFrom_no_match _ "|fim|>" "" body Hbody).
    now rewrite (replaceAllFrom_no_match _ "|suffix|>" "" body Hbody).
  - rewrite Hfim.
    change (replaceAllFrom "<|fim|>" "" 0 "<|fim|>") with "".
    rewrite app_nil_r.
    now rewrite (replaceAllFrom_no_match _ "|suffix|>" "" body Hbody).
  - rewrite Hfim.
    change (replaceAllFrom "<|fim|>" "" 0 "<|suffix|>") with "<|suffix|>".
    rewrite replaceAllFrom_text by exact Hbody.
    change (replaceAllFrom "<|suffix|>" "" 0 "<|suffix|>") with "".
    now rewrite app_nil_r.
Qed.

Lemma postProcess_unwraps_completion_witness :
  occurs ltSign "return a + b;" = false
  /\ postProcess (stripLeading isNoiseChar) "return a + b;" = "return a + b;"
  /\ postProcess (stripLeading isNoiseChar) "<|fim|>return a + b;<|fim|>"
     = "return a + b;"
  /\ postProcess (stripLeading isNoiseChar) "<|fim|>return a + b;<|suffix|>"
     = "return a + b;".
Proof.
  split; [reflexivity |].
  exact (postProcess_unwraps_completion (stripLeading isNoiseChar) "return a + b;"
           eq_refl).
Defined.

End GeminiExtra.

(** ** More on the BFG retriever *)

Module BfgExtra.
Import Js Bfg JsFacts BfgFacts.
Local Open Scope bfg_scope.

(** *** Invariants of a session

    A property of the retriever's state that survives recording a revision,
    and survives sending a request while the engine is loaded, survives every
    method: each request is sent behind an [await] of [loadedBFG]. *)

Section Invariants.

Variable engine : list Rpc -> Rpc -> Outcome JsValue.
Variable isAlive : list Rpc -> bool.
Variable inferGitRepository : string -> Outcome (option SimpleRepository).
Variable fromString : nat -> string -> string -> string -> list SymbolRequest.
Variable fromDocument : nat -> TextDocument -> Position -> list SymbolRequest.
Variable uriFrom : string -> JsValue -> Error + JsValue.
Variable retrieverIdentifier : string.

Variable I : BfgRetriever -> Prop.
Hypothesis I_request :
  forall q s, I s -> loadedBFG s = Return tt ->
              I (withRequests (requests s ++ [q]) s).
Hypothesis I_record :
  forall u c s, I s ->
                I (withRevisions (<[u := c]> (indexedRepositoryRevisions s)) s).

Local Abbreviation loadedAnd := (loadedAnd I).

Lemma request_loaded method params :
  preserves loadedAnd (request engine method params).
Proof.
  intros s [Hs Hload]. unfold request. cbn [snd]. split; [| exact Hload].
  now apply I_request.
Qed.

(** After [await this.loadedBFG], the rest runs with the engine loaded. *)
Lemma preserves_after_load {A} (k : M A) :
  preserves loadedAnd k ->
  preserves I (s <- get ;; await (loadedBFG s) ;;; k).
Proof.
  intros Hk s Hs. unfold bind, get, await.
  destruct (loadedBFG s) as [[]|e|] eqn:Hload; cbn [snd]; try exact Hs.
  apply (Hk s). now split.
Qed.

Lemma indexEntry_inv repository workspace :
  preserves I (indexEntry engine repository workspace).
Proof.
  unfold indexEntry.
  assert (Hbody : preserves I
            (s <- get ;;
             await (loadedBFG s) ;;;
             tryCatch
               ((match repository with
                 | Some r =>
                     request engine "bfg/gitRevision/didChange"
                       (JObj [("gitDirectoryUri", JStr (uri r))]) ;;; ret tt
                 | None => ret tt
                 end) ;;;
                (match workspace with
                 | Some w =>
                     request engine "bfg/workspace/didChange"
                       (JObj [("workspaceUri", JStr w)]) ;;; ret tt
                 | None => ret tt
                 end))
               (fun _ => ret tt))).
  { apply preserves_after_load.
    apply preserves_tryCatch; [| intros e; apply preserves_ret].
    apply preserves_bind.
    - destruct repository as [r|]; [| apply preserves_ret].
      apply preserves_bind; [apply request_loaded | intros v; apply preserves_ret].
    - intros _. destruct workspace as [w|]; [| apply preserves_ret].
      apply preserves_bind; [apply request_loaded | intros v; apply preserves_ret]. }
  destruct repository, workspace; try exact Hbody. apply preserves_ret.
Qed.

Lemma didChangeSimpleRepository_inv repository :
  preserves I (didChangeSimpleRepository engine repository).
Proof.
  unfold didChangeSimpleRepository.
  apply preserves_bind; [apply preserves_get |]. intros s.
  destruct (strictNeq _ _); [| apply preserves_ret].
  apply preserves_bind; [| intros _; apply indexEntry_inv].
  apply preserves_modify. intros s' Hs'. now apply I_record.
Qed.

Lemma didChangeGitExtensionRepository_inv repository :
  preserves I (didChangeGitExtensionRepository engine repository).
Proof.
  unfold didChangeGitExtensionRepository.
  destruct (headCommit repository) as [c|]; [| apply preserves_ret].
  destruct (String.eqb c ""); [apply preserves_ret |].
  apply didChangeSimpleRepository_inv.
Qed.

Lemma indexInferredGitRepositories_inv ws :
  preserves I (indexInferredGitRepositories engine inferGitRepository ws).
Proof.
  unfold indexInferredGitRepositories.
  destruct (negb (indexParentGitFolder ws)); [apply preserves_ret |].
  apply preserves_forEach. intros folder.
  apply preserves_bind; [apply preserves_get |]. intros s.
  destruct (bool_decide _); [apply preserves_ret |].
  apply preserves_bind; [apply preserves_await |]. intros [r|].
  - apply didChangeSimpleRepository_inv.
  - apply preserves_ret.
Qed.

Lemma indexWorkspace_inv ws :
  preserves I (indexWorkspace engine inferGitRepository ws).
Proof.
  unfold indexWorkspace. apply preserves_bind.
  - unfold indexGitRepositories.
    destruct (gitRepositories ws) as [repositories|]; [| apply preserves_ret].
    apply preserves_bind; [| intros _; apply indexInferredGitRepositories_inv].
    apply preserves_forEach. intros r. apply didChangeGitExtensionRepository_inv.
  - intros _. unfold indexRemainingWorkspaceFolders.
    apply preserves_forEach. intros folder.
    apply preserves_bind; [apply preserves_get |]. intros s.
    destruct (isWorkspaceIndexed _ _); [apply preserves_ret |].
    apply indexEntry_inv.
Qed.

Lemma convertSymbols_preserves (J : BfgRetriever -> Prop) response :
  preserves J (convertSymbols uriFrom retrieverIdentifier response).
Proof.
  unfold convertSymbols. apply preserves_bind.
  { unfold getProp. destruct response; first [apply preserves_throw | apply preserves_ret]. }
  intros symbols.
  destruct (if truthy symbols then symbols else JArr []); try apply preserves_throw.
  apply preserves_mapM. intros contextSnippet. unfold convertSnippet.
  apply preserves_bind.
  { unfold getProp.
    destruct contextSnippet; first [apply preserves_throw | apply preserves_ret]. }
  intros fileName. apply preserves_bind; [apply preserves_sync |].
  intros u. apply preserves_ret.
Qed.

Lemma retrieve_inv o :
  preserves I
    (retrieve engine isAlive fromString fromDocument uriFrom retrieverIdentifier o).
Proof.
  unfold retrieve. apply preserves_tryCatch; [| intros e; apply preserves_ret].
  intros s Hs. unfold bind at 1, get at 1. cbn beta iota.
  destruct (didFailLoading s); [exact Hs |].
  unfold bind at 1, await.
  destruct (loadedBFG s) as [[]|e|] eqn:Hload; cbn beta iota; try exact Hs.
  assert (Hrest : preserves loadedAnd
            (s0 <- get ;;
             if negb (isAlive (requests s0)) then ret []
             else
               (if awaitIndexing s0 then await (bfgIndexingPromise s0) else ret tt) ;;;
               source <- sync (lastCandidateCurrentLine (lastCandidate o)) ;;
               let q := contextQuery fromString fromDocument o source in
               response <- request engine (method q) (params q) ;;
               readReply uriFrom retrieverIdentifier response)).
  { apply preserves_bind; [apply preserves_get |]. intros s'.
    destruct (negb (isAlive (requests s'))); [apply preserves_ret |].
    apply preserves_bind.
    { destruct (awaitIndexing s'); [apply preserves_await | apply preserves_ret]. }
    intros _. apply preserves_bind; [apply preserves_sync |]. intros source.
    apply preserves_bind; [apply request_loaded |].
    intros response. apply readReply_preserves. }
  apply (Hrest s). now split.
Qed.

Lemma dispose_inv : preserves I (dispose engine).
Proof.
  intros s Hs. unfold dispose, bind, get. cbn beta iota.
  destruct (didFailLoading s); [exact Hs |].
  destruct (loadedBFG s) as [[]|e|] eqn:Hload; cbn [snd ret]; try exact Hs.
  unfold request. cbn [snd]. now apply I_request.
Qed.

Lemma step_inv op :
  preserves I
    (step engine isAlive inferGitRepository fromString fromDocument
       uriFrom retrieverIdentifier op).
Proof.
  destruct op as [o|r|ws|]; cbn [step];
    (apply preserves_bind; [| intros x; apply preserves_ret]).
  - apply retrieve_inv.
  - apply didChangeGitExtensionRepository_inv.
  - apply indexInferredGitRepositories_inv.
  - apply dispose_inv.
Qed.

Lemma run_inv ops s :
  I s ->
  I (snd (run engine isAlive inferGitRepository fromString fromDocument
            uriFrom retrieverIdentifier ops s)).
Proof. apply run_preserves. exact step_inv. Qed.

End Invariants.

(** *** Sessions *)

Section Sessions.

Variable spawnBfg : Outcome unit.
Variable engine : list Rpc -> Rpc -> Outcome JsValue.
Variable isAlive : list Rpc -> bool.
Variable inferGitRepository : string -> Outcome (option SimpleRepository).
Variable fromString : nat -> string -> string -> string -> list SymbolRequest.
Variable fromDocument : nat -> TextDocument -> Position -> list SymbolRequest.
Variable uriFrom : string -> JsValue -> Error + JsValue.
Variable retrieverIdentifier : string.

Local Abbreviation run' :=
  (run engine isAlive inferGitRepository fromString fromDocument
     uriFrom retrieverIdentifier).
Local Abbreviation construct' := (construct spawnBfg engine inferGitRepository).

(** The load, spelled out: one spawn, and the handshake when the spawn
    returned. *)
Lemma doLoadBFG_blank ws :
  doLoadBFG spawnBfg engine (blank ws)
  = match spawnBfg with
    | Return _ =>
        (match engine [] initializeRequest with
         | Return _ => Return tt
         | Throw e => Throw e
         | Pending => Pending
         end,
         withRequests [initializeRequest] (withSpawned 1 (blank ws)))
    | Throw e => (Throw e, withSpawned 1 (blank ws))
    | Pending => (Pending, withSpawned 1 (blank ws))
    end.
Proof.
  unfold doLoadBFG, bind, modify, await, request. cbn.
  destruct spawnBfg; [| reflexivity | reflexivity].
  fold initializeRequest. now destruct (engine [] initializeRequest).
Qed.

(** The constructor establishes, and the indexing keeps, whatever holds
    once the load has settled. *)
Lemma construct_inv (I : BfgRetriever -> Prop) ws :
  (forall q s, I s -> loadedBFG s = Return tt ->
               I (withRequests (requests s ++ [q]) s)) ->
  (forall u c s, I s ->
                 I (withRevisions (<[u := c]> (indexedRepositoryRevisions s)) s)) ->
  (forall p s, I s -> I (withIndexingPromise p s)) ->
  (let '(loaded, s1) := doLoadBFG spawnBfg engine (blank ws) in
   I (withLoadedBFG loaded (isThrow loaded) s1)) ->
  I (construct' ws).
Proof.
  intros Hreq Hrec Hidx Hload. unfold construct.
  destruct (doLoadBFG spawnBfg engine (blank ws)) as [loaded s1].
  pose proof (indexWorkspace_inv engine inferGitRepository I Hreq Hrec ws _ Hload)
    as Hindex.
  destruct (indexWorkspace engine inferGitRepository ws
              (withLoadedBFG loaded (isThrow loaded) s1)) as [indexing s3].
  now apply Hidx.
Qed.

(** X8: the process is spawned once, by the constructor; the outcome of
    the load, the failure flag, which is set exactly when the load was
    rejected, the await-indexing setting and the outcome of the initial
    indexing are those of the constructor through every later operation. *)
Theorem load_is_settled_by_constructor (ws : Workspace) (ops : list Op) :
  let s0 := construct' ws in
  let s := snd (run' ops s0) in
  sameProcess s0 s
  /\ spawned s = 1
  /\ didFailLoading s = isThrow (loadedBFG s)
  /\ awaitIndexing s = awaitIndexingSetting ws.
Proof.
  intros s0 s.
  assert (Hsame : sameProcess s0 s).
  { apply (run_inv engine isAlive inferGitRepository fromString fromDocument
             uriFrom retrieverIdentifier (sameProcess s0)).
    - intros q s' Hs' _. exact Hs'.
    - intros u c s' Hs'. exact Hs'.
    - repeat split. }
  assert (Hs0 : spawned s0 = 1
                /\ didFailLoading s0 = isThrow (loadedBFG s0)
                /\ awaitIndexing s0 = awaitIndexingSetting ws).
  { apply (construct_inv
             (fun s => spawned s = 1
                       /\ didFailLoading s = isThrow (loadedBFG s)
                       /\ awaitIndexing s = awaitIndexingSetting ws)).
    - intros q s' Hs' _. exact Hs'.
    - intros u c s' Hs'. exact Hs'.
    - intros p s' Hs'. exact Hs'.
    - rewrite doLoadBFG_blank.
      destruct spawnBfg; [destruct (engine [] initializeRequest) | |];
        repeat split. }
  destruct Hsame as (Hl & Hf & Ha & Hi & Hsp).
  destruct Hs0 as (Hsp0 & Hf0 & Ha0).
  split; [repeat split; assumption |].
  rewrite Hsp, Hf, Hl, Ha. auto.
Qed.

(** X7: the handshake is the first request of every session.  The channel
    is empty, or carries the handshake alone, or carries the handshake
    followed by other requests, and then the spawn returned and the engine
    answered the handshake. *)
Theorem handshake_comes_first (ws : Workspace) (ops : list Op) :
  let sent := requests (snd (run' ops (construct' ws))) in
  sent = []
  \/ sent = [initializeRequest]
  \/ (spawnBfg = Return tt
      /\ exists reply rest,
           engine [] initializeRequest = Return reply
           /\ sent = initializeRequest :: rest).
Proof.
  intros sent.
  assert (Hquiet : forall l,
            (let '(loaded, s1) := doLoadBFG spawnBfg engine (blank ws) in
             isReturn loaded = false /\ requests s1 = l) ->
            sent = l).
  { intros l Hl.
    assert (Hinv : (fun s => isReturn (loadedBFG s) = false /\ requests s = l)
                     (snd (run' ops (construct' ws)))).
    { apply (run_inv engine isAlive inferGitRepository fromString fromDocument
               uriFrom retrieverIdentifier
               (fun s => isReturn (loadedBFG s) = false /\ requests s = l)).
      - intros q s [Hs _] Hload. rewrite Hload in Hs. discriminate.
      - intros u c s Hs. exact Hs.
      - apply (construct_inv
                 (fun s => isReturn (loadedBFG s) = false /\ requests s = l)).
        + intros q s [Hs _] Hload. rewrite Hload in Hs. discriminate.
        + intros u c s Hs. exact Hs.
        + intros p s Hs. exact Hs.
        + destruct (doLoadBFG spawnBfg engine (blank ws)) as [loaded s1].
          exact Hl. }
    exact (proj2 Hinv). }
  assert (Hcases : spawnBfg = Return tt
                   \/ (exists e, spawnBfg = Throw e) \/ spawnBfg = Pending)
    by (destruct spawnBfg as [[]|e|]; eauto).
  destruct Hcases as [Hspawn | [[e Hspawn] | Hspawn]].
  - destruct (engine [] initializeRequest) as [reply|e|] eqn:Hinit.
    + right. right. split; [exact Hspawn |]. exists reply.
      assert (Hinv : (fun s => exists rest, requests s = initializeRequest :: rest)
                       (snd (run' ops (construct' ws)))).
      { apply (run_inv engine isAlive inferGitRepository fromString fromDocument
                 uriFrom retrieverIdentifier
                 (fun s => exists rest, requests s = initializeRequest :: rest)).
        - intros q s [rest Hs] _. exists (rest ++ [q])%list. cbn. now rewrite Hs.
        - intros u c s Hs. exact Hs.
        - apply (construct_inv
                   (fun s => exists rest, requests s = initializeRequest :: rest)).
          + intros q s [rest Hs] _. exists (rest ++ [q])%list. cbn. now rewrite Hs.
          + intros u c s Hs. exact Hs.
          + intros p s Hs. exact Hs.
          + rewrite doLoadBFG_blank, Hspawn, Hinit. now exists []. }
      destruct Hinv as [rest Hrest]. exists rest. split; [reflexivity | exact Hrest].
    + right. left. apply Hquiet. rewrite doLoadBFG_blank, Hspawn, Hinit. now split.
    + right. left. apply Hquiet. rewrite doLoadBFG_blank, Hspawn, Hinit. now split.
  - left. apply Hquiet. rewrite doLoadBFG_blank, Hspawn. now split.
  - left. apply Hquiet. rewrite doLoadBFG_blank, Hspawn. now split.
Qed.

(** X9: the revision map only grows: through any sequence of operations
    every key of the map stays a key, so a folder that is reported indexed
    stays reported indexed. *)
Theorem revisions_only_grow (s0 : BfgRetriever) (ops : list Op) :
  let s := snd (run' ops s0) in
  keepsKeys (indexedRepositoryRevisions s0) (indexedRepositoryRevisions s)
  /\ (forall folder,
        isWorkspaceIndexed (indexedRepositoryRevisions s0) folder = true ->
        isWorkspaceIndexed (indexedRepositoryRevisions s) folder = true).
Proof.
  intros s.
  assert (Hkeys : keepsKeys (indexedRepositoryRevisions s0) (indexedRepositoryRevisions s)).
  { apply (run_inv engine isAlive inferGitRepository fromString fromDocument
             uriFrom retrieverIdentifier
             (fun s => keepsKeys (indexedRepositoryRevisions s0)
                         (indexedRepositoryRevisions s))).
    - intros q s' Hs' _. exact Hs'.
    - intros u c s' Hs' key Hkey. cbn.
      destruct (decide (u = key)) as [->|Hne].
      + rewrite lookup_insert_eq. eauto.
      + rewrite lookup_insert_ne by exact Hne. now apply Hs'.
    - intros key Hkey. exact Hkey. }
  split; [exact Hkeys |].
  intros folder (key & rest & Hkey & ->)%isWorkspaceIndexed_spec.
  apply isWorkspaceIndexed_spec. exists key, rest. split; [now apply Hkeys | reflexivity].
Qed.

End Sessions.

(** *** [retrieve] *)

Lemma lookupField_setField_eq name v fields :
  lookupField name (setField name v fields) = v.
Proof.
  induction fields as [|[k w] fields IH]; cbn.
  - now rewrite String.eqb_refl.
  - destruct (String.eqb k name) eqn:Hk; cbn; now rewrite Hk.
Qed.

Lemma lookupField_setField_ne name other v fields :
  name <> other ->
  lookupField other (setField name v fields) = lookupField other fields.
Proof.
  intros Hne. induction fields as [|[k w] fields IH]; cbn.
  - now rewrite (proj2 (String.eqb_neq _ _) Hne).
  - destruct (String.eqb k name) eqn:Hk; cbn.
    + apply String.eqb_eq in Hk as ->.
      now rewrite (proj2 (String.eqb_neq _ _) Hne).
    + destruct (String.eqb k other); [reflexivity | exact IH].
Qed.

Section RetrieveExtra.

Variable engine : list Rpc -> Rpc -> Outcome JsValue.
Variable isAlive : list Rpc -> bool.
Variable fromString : nat -> string -> string -> string -> list SymbolRequest.
Variable fromDocument : nat -> TextDocument -> Position -> list SymbolRequest.
Variable uriFrom : string -> JsValue -> Error + JsValue.
Variable retrieverIdentifier : string.

Local Abbreviation retrieve' :=
  (retrieve engine isAlive fromString fromDocument uriFrom retrieverIdentifier).
Local Abbreviation contextQuery' := (contextQuery fromString fromDocument).

Lemma readReply_state response s :
  snd (tryCatch (readReply uriFrom retrieverIdentifier response)
         (fun _ => ret []) s) = s.
Proof.
  apply (preserves_tryCatch (fun x => x = s)); [| intros e x Hx; exact Hx | reflexivity].
  apply readReply_preserves.
Qed.

(** X10: [retrieve] changes nothing but the channel, and sends at most
    its one query: when the load succeeded, the probe answers, the awaited
    indexing is done and the last candidate gives a line, the query for that
    line is sent; in every other case the state is left as it is. *)
Theorem retrieve_sends_one_query (o : ContextRetrieverOptions) (s : BfgRetriever) :
  (forall source,
     reachesQuery isAlive o s source ->
     snd (retrieve' o s) = withRequests (requests s ++ [contextQuery' o source]) s)
  /\ ((forall source, ~ reachesQuery isAlive o s source) ->
      snd (retrieve' o s) = s).
Proof.
  split.
  - intros source Hreach. rewrite (retrieve_at_query _ _ _ _ _ _ o s source Hreach).
    cbv zeta. destruct (engine (requests s) (contextQuery' o source)); cbn [snd];
      try reflexivity.
    apply readReply_state.
  - intros Hno. unfold reachesQuery in Hno.
    unfold retrieve, tryCatch, bind, get, await. cbn.
    destruct (didFailLoading s) eqn:Hflag; [reflexivity |].
    destruct (loadedBFG s) as [[]|e|] eqn:Hload; cbn; try reflexivity.
    destruct (isAlive (requests s)) eqn:Halive; cbn; [| reflexivity].
    destruct (lastCandidateCurrentLine (lastCandidate o)) as [e|source] eqn:Hline.
    + destruct (awaitIndexing s);
        [destruct (bfgIndexingPromise s) as [[]|e'|] |]; reflexivity.
    + destruct (awaitIndexing s) eqn:Hawait.
      * destruct (bfgIndexingPromise s) as [[]|e'|] eqn:Hindex; try reflexivity.
        exfalso. apply (Hno source). auto.
      * exfalso. apply (Hno source). repeat split; auto. discriminate.
Qed.

(** X13: with the await-indexing setting on, a rejected initial indexing
    stops [retrieve] before its query: it returns the empty list and sends
    nothing. *)
Theorem retrieve_awaits_indexing
    (o : ContextRetrieverOptions) (s : BfgRetriever) (e : Error) :
  didFailLoading s = false ->
  loadedBFG s = Return tt ->
  isAlive (requests s) = true ->
  awaitIndexing s = true ->
  bfgIndexingPromise s = Throw e ->
  retrieve' o s = (Return [], s).
Proof.
  intros Hflag Hload Halive Hawait Hindex.
  unfold retrieve, tryCatch, bind, get, await. cbn.
  rewrite Hflag, Hload. cbn. rewrite Halive. cbn. now rewrite Hawait, Hindex.
Qed.

(** X20: a last candidate whose result has no item stops [retrieve]
    before its query: reading the insert text of the first item throws, and
    [retrieve] returns the empty list and sends nothing. *)
Theorem retrieve_without_candidate_item
    (o : ContextRetrieverOptions) (s : BfgRetriever) (c : LastCandidate) :
  lastCandidate o = Some c ->
  items c = [] ->
  isPending (loadedBFG s) = false ->
  (awaitIndexing s = true -> isPending (bfgIndexingPromise s) = false) ->
  retrieve' o s = (Return [], s).
Proof.
  intros Hlast Hitems Hload Hindex.
  unfold retrieve, tryCatch, bind, get, await. cbn.
  destruct (didFailLoading s); [reflexivity |].
  destruct (loadedBFG s) as [[]|e|]; cbn; try reflexivity; [| discriminate].
  destruct (isAlive (requests s)); cbn; [| reflexivity].
  unfold lastCandidateCurrentLine. rewrite Hlast, Hitems.
  destruct (awaitIndexing s); [| reflexivity].
  specialize (Hindex eq_refl).
  destruct (bfgIndexingPromise s) as [[]|e|]; try reflexivity. discriminate.
Qed.

(** X12: a reply that is an object without symbols (an array, or an
    object whose [symbols] member is missing, falsy or empty) is no error:
    [retrieve] returns the empty list, with its query on the channel. *)
Theorem retrieve_reply_without_symbols
    (o : ContextRetrieverOptions) (s : BfgRetriever) (source : string)
    (response : JsValue) :
  reachesQuery isAlive o s source ->
  engine (requests s) (contextQuery' o source) = Return response ->
  noSymbols response ->
  retrieve' o s
  = (Return [], withRequests (requests s ++ [contextQuery' o source]) s).
Proof.
  intros Hreach Hreply Hnone.
  rewrite (retrieve_at_query _ _ _ _ _ _ o s source Hreach). cbv zeta.
  rewrite Hreply.
  destruct Hnone as [[l ->] | (fields & -> & [Hfalsy | Hempty])].
  - reflexivity.
  - unfold tryCatch, readReply, convertSymbols, bind, getProp, ret. cbn.
    now rewrite Hfalsy.
  - unfold tryCatch, readReply, convertSymbols, bind, getProp, ret. cbn.
    now rewrite Hempty.
Qed.

Lemma mapM_convertSnippet_ok (mkUri : string -> JsValue -> JsValue)
    (l : list JsValue) (s : BfgRetriever) :
  (forall scheme path, uriFrom scheme path = inr (mkUri scheme path)) ->
  Forall (fun x => x <> JNull /\ x <> JUndefined) l ->
  mapM (convertSnippet uriFrom retrieverIdentifier) l s
  = (Return
       (map (fun x =>
               JObj (setField "uri" (mkUri "file" (fileNameOf x))
                       (setField "identifier" (JStr retrieverIdentifier) (spread x))))
          l), s).
Proof.
  intros Huri Hall. induction Hall as [|x l [Hnull Hundef] _ IH]; [reflexivity |].
  cbn [mapM map]. unfold bind at 1.
  assert (Hx : convertSnippet uriFrom retrieverIdentifier x s
               = (Return
                    (JObj (setField "uri" (mkUri "file" (fileNameOf x))
                             (setField "identifier" (JStr retrieverIdentifier)
                                (spread x)))), s)).
  { unfold convertSnippet, bind, getProp, sync, ret.
    destruct x; try congruence; cbn; now rewrite Huri. }
  rewrite Hx. unfold bind. now rewrite IH.
Qed.

Lemma describeSymbol_JObj (snippetFields : list (string * JsValue)) (s : BfgRetriever) :
  describeSymbol (JObj snippetFields) s
  = (if toStringThrows (lookupField "symbol" snippetFields)
        || toStringThrows (lookupField "content" snippetFields)
     then Throw typeError else Return tt, s).
Proof.
  unfold describeSymbol, bind, getProp, ret, throw. cbn.
  now destruct (toStringThrows (lookupField "symbol" snippetFields)
                || toStringThrows (lookupField "content" snippetFields)).
Qed.

Lemma converted_lookup (name : string) (u : JsValue) (x : JsValue) :
  name <> "identifier" -> name <> "uri" ->
  lookupField name
    (setField "uri" u (setField "identifier" (JStr retrieverIdentifier) (spread x)))
  = lookupField name (spread x).
Proof.
  intros Hid Huri. rewrite lookupField_setField_ne by congruence.
  now rewrite lookupField_setField_ne by congruence.
Qed.

Lemma mapM_describeSymbol_ok (mkUri : string -> JsValue -> JsValue)
    (l : list JsValue) (s : BfgRetriever) :
  Forall (fun x =>
            toStringThrows (lookupField "symbol" (spread x)) = false
            /\ toStringThrows (lookupField "content" (spread x)) = false) l ->
  exists done,
    mapM describeSymbol
      (map (fun x =>
              JObj (setField "uri" (mkUri "file" (fileNameOf x))
                      (setField "identifier" (JStr retrieverIdentifier) (spread x))))
         l) s
    = (Return done, s).
Proof.
  intros Hall. induction Hall as [|x l [Hsymbol Hcontent] _ [done IH]].
  - now exists [].
  - cbn [mapM map]. unfold bind at 1. rewrite describeSymbol_JObj.
    rewrite !converted_lookup by discriminate. rewrite Hsymbol, Hcontent. cbn.
    unfold bind. rewrite IH. now exists (tt :: done).
Qed.

Lemma mapM_describeSymbol_throws (mkUri : string -> JsValue -> JsValue)
    (l : list JsValue) (s : BfgRetriever) :
  Exists (fun x =>
            toStringThrows (lookupField "symbol" (spread x)) = true
            \/ toStringThrows (lookupField "content" (spread x)) = true) l ->
  mapM describeSymbol
    (map (fun x =>
            JObj (setField "uri" (mkUri "file" (fileNameOf x))
                    (setField "identifier" (JStr retrieverIdentifier) (spread x))))
       l) s
  = (Throw typeError, s).
Proof.
  induction l as [|x l IH]; intros Hex; [now apply Exists_nil in Hex |].
  cbn [mapM map]. unfold bind at 1. rewrite describeSymbol_JObj.
  rewrite !converted_lookup by discriminate.
  destruct (toStringThrows (lookupField "symbol" (spread x))
            || toStringThrows (lookupField "content" (spread x))) eqn:Hx;
    [reflexivity |].
  apply orb_false_iff in Hx as [Hsymbol Hcontent].
  apply Exists_cons in Hex as [[Hbad | Hbad] | Hrest]; try congruence.
  unfold bind. now rewrite (IH Hrest).
Qed.

(** X11: a reply with an array of symbols whose [symbol] and [content]
    members convert to strings comes back converted, one snippet per symbol
    and in order: each snippet is the symbol's own fields with [identifier]
    set to the retriever's identifier and [uri] set to the file URI of the
    symbol's [fileName]; every other field is the symbol's. *)
Theorem retrieve_converts_symbols
    (mkUri : string -> JsValue -> JsValue)
    (o : ContextRetrieverOptions) (s : BfgRetriever) (source : string)
    (fields : list (string * JsValue)) (symbols : list JsValue) :
  (forall scheme path, uriFrom scheme path = inr (mkUri scheme path)) ->
  reachesQuery isAlive o s source ->
  engine (requests s) (contextQuery' o source) = Return (JObj fields) ->
  lookupField "symbols" fields = JArr symbols ->
  Forall (fun x => x <> JNull /\ x <> JUndefined) symbols ->
  Forall (fun x =>
            toStringThrows (lookupField "symbol" (spread x)) = false
            /\ toStringThrows (lookupField "content" (spread x)) = false) symbols ->
  exists snippets,
    fst (retrieve' o s) = Return snippets
    /\ Forall2
         (fun symbol snippet =>
            exists snippetFields,
              snippet = JObj snippetFields
              /\ lookupField "identifier" snippetFields = JStr retrieverIdentifier
              /\ lookupField "uri" snippetFields = mkUri "file" (fileNameOf symbol)
              /\ forall name,
                   name <> "identifier" -> name <> "uri" ->
                   lookupField name snippetFields = lookupField name (spread symbol))
         symbols snippets.
Proof.
  intros Huri Hreach Hreply Hsymbols Hall Hprint.
  rewrite (retrieve_at_query _ _ _ _ _ _ o s source Hreach). cbv zeta.
  rewrite Hreply.
  unfold tryCatch, readReply. cbn [typeofObject negb].
  unfold bind at 1, convertSymbols, bind at 1, getProp, ret. cbn [lookupField].
  rewrite Hsymbols. cbn [truthy].
  rewrite (mapM_convertSnippet_ok mkUri symbols _ Huri Hall).
  unfold bind.
  destruct (mapM_describeSymbol_ok mkUri symbols
              (withRequests (requests s ++ [contextQuery' o source]) s) Hprint)
    as [done ->].
  cbn [fst]. eexists. split; [reflexivity |].
  clear Hall Hprint Hsymbols.
  induction symbols as [|x l IH]; cbn; constructor; [| exact IH].
  eexists. split; [reflexivity |]. split; [| split].
  - rewrite lookupField_setField_ne by discriminate.
    apply lookupField_setField_eq.
  - apply lookupField_setField_eq.
  - intros name Hid Huriname. now apply converted_lookup.
Qed.

(** A symbol whose [symbol] or [content] member has no string conversion
    makes the logging call throw, after the conversion and inside the [try]:
    [retrieve] returns the empty list. *)
Lemma retrieve_unprintable_symbol
    (mkUri : string -> JsValue -> JsValue)
    (o : ContextRetrieverOptions) (s : BfgRetriever) (source : string)
    (fields : list (string * JsValue)) (symbols : list JsValue) :
  (forall scheme path, uriFrom scheme path = inr (mkUri scheme path)) ->
  reachesQuery isAlive o s source ->
  engine (requests s) (contextQuery' o source) = Return (JObj fields) ->
  lookupField "symbols" fields = JArr symbols ->
  Forall (fun x => x <> JNull /\ x <> JUndefined) symbols ->
  Exists (fun x =>
            toStringThrows (lookupField "symbol" (spread x)) = true
            \/ toStringThrows (lookupField "content" (spread x)) = true) symbols ->
  fst (retrieve' o s) = Return [].
Proof.
  intros Huri Hreach Hreply Hsymbols Hall Hbad.
  rewrite (retrieve_at_query _ _ _ _ _ _ o s source Hreach). cbv zeta.
  rewrite Hreply.
  unfold tryCatch, readReply. cbn [typeofObject negb].
  unfold bind at 1, convertSymbols, bind at 1, getProp, ret. cbn [lookupField].
  rewrite Hsymbols. cbn [truthy].
  rewrite (mapM_convertSnippet_ok mkUri symbols _ Huri Hall).
  unfold bind.
  now rewrite (mapM_describeSymbol_throws mkUri symbols _ Hbad).
Qed.

End RetrieveExtra.

Lemma sampleLoaded_reachesQuery :
  reachesQuery (fun _ => true) sampleRetrieve sampleLoaded "undefined".
Proof. repeat split. Qed.

Lemma retrieve_awaits_indexing_witness :
  let s :=
    {| loadedBFG := Return tt; bfgIndexingPromise := Throw (MkError "git failed");
       awaitIndexing := true; didFailLoading := false;
       indexedRepositoryRevisions := ∅;
       requests := [initializeRequest]; spawned := 1 |} in
  let engine := fun (_ : list Rpc) (_ : Rpc) => Return (JObj []) in
  let isAlive := fun _ : list Rpc => true in
  let fromString := fun (_ : nat) (_ _ _ : string) => sourceA in
  let fromDocument := fun (_ : nat) (_ : TextDocument) (_ : Position) => sourceB in
  let uriFrom := fun (scheme : string) (path : JsValue) =>
                   @inr Error JsValue (fileUri scheme path) in
  awaitIndexing s = true
  /\ bfgIndexingPromise s = Throw (MkError "git failed")
  /\ retrieve engine isAlive fromString fromDocument uriFrom "bfg" sampleRetrieve s
     = (Return [], s).
Proof.
  intros s engine isAlive fromString fromDocument uriFrom.
  split; [reflexivity |]. split; [reflexivity |].
  exact (retrieve_awaits_indexing engine isAlive fromString fromDocument uriFrom
           "bfg" sampleRetrieve s (MkError "git failed")
           eq_refl eq_refl eq_refl eq_refl eq_refl).
Defined.

Lemma retrieve_without_candidate_item_witness :
  let o :=
    {| document := document sampleRetrieve; position := position sampleRetrieve;
       lastCandidate := Some {| currentLinePrefix := "const x = "; items := [] |} |} in
  let engine := fun (_ : list Rpc) (_ : Rpc) => Return (JObj []) in
  let isAlive := fun _ : list Rpc => true in
  let fromString := fun (_ : nat) (_ _ _ : string) => sourceA in
  let fromDocument := fun (_ : nat) (_ : TextDocument) (_ : Position) => sourceB in
  let uriFrom := fun (scheme : string) (path : JsValue) =>
                   @inr Error JsValue (fileUri scheme path) in
  isPending (loadedBFG sampleLoaded) = false
  /\ retrieve engine isAlive fromString fromDocument uriFrom "bfg" o sampleLoaded
     = (Return [], sampleLoaded).
Proof.
  intros o engine isAlive fromString fromDocument uriFrom.
  split; [reflexivity |].
  refine (retrieve_without_candidate_item engine isAlive fromString fromDocument
            uriFrom "bfg" o sampleLoaded
            {| currentLinePrefix := "const x = "; items := [] |}
            eq_refl eq_refl eq_refl _).
  intros H. discriminate H.
Defined.

Lemma retrieve_reply_without_symbols_witness :
  let engine := fun (_ : list Rpc) (_ : Rpc) => Return (JObj [("symbols", JNull)]) in
  let isAlive := fun _ : list Rpc => true in
  let fromString := fun (_ : nat) (_ _ _ : string) => sourceA in
  let fromDocument := fun (_ : nat) (_ : TextDocument) (_ : Position) => sourceB in
  let uriFrom := fun (scheme : string) (path : JsValue) =>
                   @inr Error JsValue (fileUri scheme path) in
  reachesQuery isAlive sampleRetrieve sampleLoaded "undefined"
  /\ noSymbols (JObj [("symbols", JNull)])
  /\ retrieve engine isAlive fromString fromDocument uriFrom "bfg"
       sampleRetrieve sampleLoaded
     = (Return [],
        withRequests
          (requests sampleLoaded
           ++ [contextQuery fromString fromDocument sampleRetrieve "undefined"])
          sampleLoaded).
Proof.
  intros engine isAlive fromString fromDocument uriFrom.
  assert (Hnone : noSymbols (JObj [("symbols", JNull)])).
  { right. exists [("symbols", JNull)]. split; [reflexivity | now left]. }
  split; [exact sampleLoaded_reachesQuery |]. split; [exact Hnone |].
  exact (retrieve_reply_without_symbols engine isAlive fromString fromDocument
           uriFrom "bfg" sampleRetrieve sampleLoaded "undefined" _
           sampleLoaded_reachesQuery eq_refl Hnone).
Defined.

Lemma retrieve_converts_symbols_witness :
  let engine := fun (_ : list Rpc) (_ : Rpc) =>
                  Return (JObj [("symbols", JArr [sampleSymbol])]) in
  let isAlive := fun _ : list Rpc => true in
  let fromString := fun (_ : nat) (_ _ _ : string) => sourceA in
  let fromDocument := fun (_ : nat) (_ : TextDocument) (_ : Position) => sourceB in
  let uriFrom := fun (scheme : string) (path : JsValue) =>
                   @inr Error JsValue (fileUri scheme path) in
  reachesQuery isAlive sampleRetrieve sampleLoaded "undefined"
  /\ Forall (fun x => x <> JNull /\ x <> JUndefined) [sampleSymbol]
  /\ Forall (fun x =>
               toStringThrows (lookupField "symbol" (spread x)) = false
               /\ toStringThrows (lookupField "content" (spread x)) = false)
       [sampleSymbol]
  /\ exists snippets,
       fst (retrieve engine isAlive fromString fromDocument uriFrom "bfg"
              sampleRetrieve sampleLoaded) = Return snippets
       /\ Forall2
            (fun symbol snippet =>
               exists snippetFields,
                 snippet = JObj snippetFields
                 /\ lookupField "identifier" snippetFields = JStr "bfg"
                 /\ lookupField "uri" snippetFields = fileUri "file" (fileNameOf symbol)
                 /\ forall name,
                      name <> "identifier" -> name <> "uri" ->
                      lookupField name snippetFields = lookupField name (spread symbol))
            [sampleSymbol] snippets.
Proof.
  intros engine isAlive fromString fromDocument uriFrom.
  assert (Hall : Forall (fun x => x <> JNull /\ x <> JUndefined) [sampleSymbol]).
  { apply List.Forall_cons; [split; discriminate | apply List.Forall_nil]. }
  assert (Hprint : Forall (fun x =>
                             toStringThrows (lookupField "symbol" (spread x)) = false
                             /\ toStringThrows (lookupField "content" (spread x)) = false)
                     [sampleSymbol]).
  { apply List.Forall_cons; [split; reflexivity | apply List.Forall_nil]. }
  split; [exact sampleLoaded_reachesQuery |]. split; [exact Hall |].
  split; [exact Hprint |].
  exact (retrieve_converts_symbols engine isAlive fromString fromDocument uriFrom
           "bfg" fileUri sampleRetrieve sampleLoaded "undefined"
           [("symbols", JArr [sampleSymbol])] [sampleSymbol]
           (fun _ _ => eq_refl) sampleLoaded_reachesQuery eq_refl eq_refl Hall Hprint).
Defined.

(** *** [dispose], [indexEntry] and the revision map *)

Section MethodsExtra.

Variable engine : list Rpc -> Rpc -> Outcome JsValue.

(** X14: [dispose] always returns.  On a retriever whose load succeeded it
    sends one [bfg/shutdown] request with a [null] payload and drops the
    reply, whether the engine answers, fails or stays silent; after a failed
    load, or while the load is pending, it sends nothing. *)
Theorem dispose_sends_shutdown (s : BfgRetriever) :
  fst (dispose engine s) = Return tt
  /\ snd (dispose engine s)
     = if negb (didFailLoading s) && isReturn (loadedBFG s)
       then withRequests (requests s ++ [shutdownRequest]) s
       else s.
Proof.
  unfold dispose, bind, get. cbn.
  destruct (didFailLoading s); [now split |].
  destruct (loadedBFG s) as [[]|e|]; cbn; now split.
Qed.

(** X15: the failures of [indexEntry].  Without a repository and a
    workspace it returns at once, whatever the state of the load.  With one
    of them, a rejected load is thrown on to the caller and nothing is sent.
    With both, a failed repository request is swallowed, and the workspace
    request is not sent. *)
Theorem indexEntry_failure_modes
    (repository : option SimpleRepository) (workspace : option string)
    (s : BfgRetriever) :
  indexEntry engine None None s = (Return tt, s)
  /\ (forall e,
        loadedBFG s = Throw e ->
        is_Some repository \/ is_Some workspace ->
        indexEntry engine repository workspace s = (Throw e, s))
  /\ (forall r w e,
        loadedBFG s = Return tt ->
        engine (requests s) (gitRevisionDidChange (uri r)) = Throw e ->
        indexEntry engine (Some r) (Some w) s
        = (Return tt, withRequests (requests s ++ [gitRevisionDidChange (uri r)]) s)).
Proof.
  split; [reflexivity |]. split.
  - intros e Hload Hsome. unfold indexEntry, bind, get, await.
    destruct repository, workspace; cbn; rewrite ?Hload; try reflexivity.
    destruct Hsome as [[x Hx] | [x Hx]]; discriminate.
  - intros r w e Hload Hthrow.
    unfold indexEntry, tryCatch, bind, get, await, request. cbn.
    rewrite Hload. cbn. fold (gitRevisionDidChange (uri r)). now rewrite Hthrow.
Qed.

(** X17: observing a repository touches its own entry of the revision map
    and no other: the entry becomes the observed commit (the empty string
    for a repository without one) when that differs from the stored value,
    and stays as it is otherwise. *)
Theorem observation_touches_one_entry
    (repository : SimpleRepository) (s : BfgRetriever) :
  let stored := indexedRepositoryRevisions s !! uri repository in
  let s' := snd (didChangeSimpleRepository engine repository s) in
  (forall key,
     key <> uri repository ->
     indexedRepositoryRevisions s' !! key = indexedRepositoryRevisions s !! key)
  /\ indexedRepositoryRevisions s' !! uri repository
     = if strictNeq (commit repository) stored
       then Some (default "" (commit repository))
       else stored.
Proof.
  intros stored s'.
  destruct (strictNeq (commit repository) stored) eqn:Hneq.
  - apply strictNeq_true in Hneq.
    assert (Hmap : indexedRepositoryRevisions s'
                   = <[uri repository := default "" (commit repository)]>
                       (indexedRepositoryRevisions s)).
    { unfold s'. rewrite (didChangeSimpleRepository_changed engine repository s Hneq).
      now destruct (indexEntry_repository engine repository
                      (withRevisions
                         (<[uri repository := default "" (commit repository)]>
                            (indexedRepositoryRevisions s)) s)) as [-> _]. }
    rewrite Hmap. split.
    + intros key Hkey. now rewrite lookup_insert_ne.
    + apply lookup_insert_eq.
  - apply strictNeq_false in Hneq.
    unfold s'. rewrite (didChangeSimpleRepository_same engine repository s Hneq).
    now split.
Qed.

End MethodsExtra.

(** *** The set of request objects *)

Lemma fold_setAdd_invariant (l seen : list SymbolRequest) :
  NoDup (map ref seen) ->
  NoDup (map ref (fold_left setAdd l seen))
  /\ (forall x, In x (fold_left setAdd l seen) -> In x seen \/ In x l)
  /\ (forall x, In x seen -> In x (fold_left setAdd l seen))
  /\ (forall x, In x l ->
        exists y, In y (fold_left setAdd l seen) /\ ref y = ref x).
Proof.
  revert seen. induction l as [|a l IH]; intros seen Hnd; cbn [fold_left].
  - repeat split; auto. intros x [].
  - assert (Hadd : NoDup (map ref (setAdd seen a))
                   /\ (forall x, In x (setAdd seen a) -> In x seen \/ x = a)
                   /\ (forall x, In x seen -> In x (setAdd seen a))
                   /\ exists y, In y (setAdd seen a) /\ ref y = ref a).
    { unfold setAdd.
      destruct (existsb (fun y => Nat.eqb (ref y) (ref a)) seen) eqn:Hex.
      - apply existsb_exists in Hex as (y & Hy & Heq). apply Nat.eqb_eq in Heq.
        repeat split; auto. now exists y.
      - repeat split.
        + rewrite map_app. apply NoDup_app. repeat split; [exact Hnd | | ].
          * intros r Hr Hr'. cbn in Hr'. apply list_elem_of_In in Hr, Hr'.
            destruct Hr' as [<- | []].
            apply in_map_iff in Hr as (y & Heq & Hy).
            assert (Htrue : existsb (fun y => Nat.eqb (ref y) (ref a)) seen = true).
            { apply existsb_exists. exists y. split; [exact Hy |].
              now apply Nat.eqb_eq. }
            congruence.
          * cbn. apply NoDup_singleton.
        + intros x [Hx | [<- | []]]%in_app_iff; auto.
        + intros x Hx. apply in_app_iff. now left.
        + exists a. split; [| reflexivity]. apply in_app_iff. right. now left. }
    destruct Hadd as (Hnd' & Hsub & Hkeep & y & Hy & Hya).
    destruct (IH (setAdd seen a) Hnd') as (IH1 & IH2 & IH3 & IH4).
    split; [exact IH1 |]. split; [| split].
    + intros x Hx. destruct (IH2 x Hx) as [Hs | Hl].
      * destruct (Hsub x Hs) as [Hseen | ->]; [now left | right; now left].
      * right. now right.
    + intros x Hx. apply IH3, Hkeep, Hx.
    + intros x [<- | Hx].
      * exists y. split; [now apply IH3 | exact Hya].
      * now apply IH4.
Qed.

(** X19: the identifiers of a query are taken from the two sources and
    from nowhere else; no request object occurs twice among them; and every
    request object of either source is among them. *)
Theorem inputIdentifiers_cover_sources
    (fromString : nat -> string -> string -> string -> list SymbolRequest)
    (fromDocument : nat -> TextDocument -> Position -> list SymbolRequest)
    (o : ContextRetrieverOptions) (source : string) :
  let a := fromString 10 (documentUri (document o)) (languageId (document o)) source in
  let b := fromDocument 10 (document o) (position o) in
  let identifiers := inputIdentifiers fromString fromDocument o source in
  NoDup (map ref identifiers)
  /\ (forall x, In x identifiers -> In x a \/ In x b)
  /\ (forall x, In x a \/ In x b ->
        exists y, In y identifiers /\ ref y = ref x).
Proof.
  intros a b identifiers.
  destruct (fold_setAdd_invariant (a ++ b) [] (NoDup_nil_2 : NoDup (map ref [])))
    as (Hnd & Hsub & _ & Hcover).
  split; [exact Hnd |]. split.
  - intros x Hx. destruct (Hsub x Hx) as [[] | Hin]. now apply in_app_iff.
  - intros x Hx. apply Hcover, in_app_iff, Hx.
Qed.

(** *** The initial indexing *)

Section InitialIndexing.

Variable spawnBfg : Outcome unit.
Variable engine : list Rpc -> Rpc -> Outcome JsValue.
Variable inferGitRepository : string -> Outcome (option SimpleRepository).

Lemma indexEntry_workspace_loaded folder s :
  loadedBFG s = Return tt ->
  isPending (engine (requests s) (workspaceDidChange folder)) = false ->
  indexEntry engine None (Some folder) s
  = (Return tt, withRequests (requests s ++ [workspaceDidChange folder]) s).
Proof.
  intros Hload Hreply. unfold indexEntry, tryCatch, bind, get, await, request. cbn.
  rewrite Hload. cbn. fold (workspaceDidChange folder).
  destruct (engine (requests s) (workspaceDidChange folder));
    [reflexivity | reflexivity | discriminate].
Qed.

Lemma isWorkspaceIndexed_empty folder : isWorkspaceIndexed ∅ folder = false.
Proof. unfold isWorkspaceIndexed. now rewrite map_to_list_empty. Qed.

Lemma forEach_all_folders (folders : list string) (s : BfgRetriever) :
  indexedRepositoryRevisions s = ∅ ->
  loadedBFG s = Return tt ->
  (forall sent q, isPending (engine sent q) = false) ->
  forEach folders
    (fun folder =>
       s <- get ;;
       if isWorkspaceIndexed (indexedRepositoryRevisions s) folder then ret tt
       else indexEntry engine None (Some folder)) s
  = (Return tt, withRequests (requests s ++ map workspaceDidChange folders) s).
Proof.
  intros Hmap Hload Hreply. revert s Hmap Hload.
  induction folders as [|folder folders IH]; intros s Hmap Hload.
  - cbn. unfold ret, withRequests. rewrite List.app_nil_r. now destruct s.
  - cbn [forEach map]. unfold bind at 1, bind at 1, get.
    rewrite Hmap, isWorkspaceIndexed_empty.
    rewrite indexEntry_workspace_loaded by auto.
    rewrite IH by (cbn; auto). unfold withRequests. cbn.
    now rewrite <- List.app_assoc.
Qed.

(** X18: without the Git extension, the constructor of a retriever whose
    engine loads and always answers announces every workspace folder, in
    order, right after the handshake; the revision map stays empty and the
    initial indexing completes. *)
Theorem workspace_without_git_extension (ws : Workspace) (reply : JsValue) :
  spawnBfg = Return tt ->
  engine [] initializeRequest = Return reply ->
  (forall sent q, isPending (engine sent q) = false) ->
  gitRepositories ws = None ->
  let s := construct spawnBfg engine inferGitRepository ws in
  requests s
  = initializeRequest :: map workspaceDidChange (default [] (workspaceFolders ws))
  /\ indexedRepositoryRevisions s = ∅
  /\ bfgIndexingPromise s = Return tt
  /\ loadedBFG s = Return tt.
Proof.
  intros Hspawn Hinit Hreply Hgit s.
  set (s2 := withLoadedBFG (Return tt) false
               (withRequests [initializeRequest] (withSpawned 1 (blank ws)))).
  assert (Hindex : indexWorkspace engine inferGitRepository ws s2
                   = (Return tt,
                      withRequests
                        (requests s2
                         ++ map workspaceDidChange (default [] (workspaceFolders ws)))
                        s2)).
  { unfold indexWorkspace, indexGitRepositories. rewrite Hgit.
    unfold bind, ret. unfold indexRemainingWorkspaceFolders.
    now rewrite forEach_all_folders. }
  assert (Hs : s = withIndexingPromise (Return tt)
                     (withRequests
                        (requests s2
                         ++ map workspaceDidChange (default [] (workspaceFolders ws)))
                        s2)).
  { unfold s, construct. rewrite doLoadBFG_blank, Hspawn, Hinit.
    cbv beta iota zeta. change (isThrow (@Return unit tt)) with false.
    fold s2. now rewrite Hindex. }
  rewrite Hs. cbn. repeat split.
Qed.

(** A rejected load, method by method. *)
Lemma indexEntry_rejected repository workspace s e :
  loadedBFG s = Throw e ->
  is_Some repository \/ is_Some workspace ->
  indexEntry engine repository workspace s = (Throw e, s).
Proof.
  intros Hload Hsome. unfold indexEntry, bind, get, await.
  destruct repository, workspace; cbn; rewrite ?Hload; try reflexivity.
  destruct Hsome as [[x Hx] | [x Hx]]; discriminate.
Qed.

Lemma aborts_ret : abortsOnRecord (ret tt).
Proof. intros s e Hload. cbn. auto. Qed.

Lemma aborts_bind (m : M unit) (k : unit -> M unit) :
  abortsOnRecord m -> (forall a, abortsOnRecord (k a)) -> abortsOnRecord (bind m k).
Proof.
  intros Hm Hk s e Hload. unfold bind.
  destruct (Hm s e Hload) as [Hload' Hcases].
  destruct (m s) as [[[]|e'|] s'] eqn:Hms; cbn [fst snd] in *.
  - destruct Hcases as [[_ Hmap] | [[Hret _] | [Hthrow _]]]; try discriminate.
    destruct (Hk tt s' e Hload') as [Hload'' Hcases'].
    split; [exact Hload'' |]. rewrite <- Hmap. exact Hcases'.
  - split; [exact Hload' |].
    destruct Hcases as [[Hret _] | [[_ Hmap] | [Hthrow Hrec]]]; try discriminate; auto.
  - split; [exact Hload' |].
    destruct Hcases as [[Hret _] | [[_ Hmap] | [Hthrow Hrec]]]; try discriminate; auto.
Qed.

Lemma aborts_forEach {A} (l : list A) (body : A -> M unit) :
  (forall x, abortsOnRecord (body x)) -> abortsOnRecord (forEach l body).
Proof.
  intros Hbody. induction l as [|x l IH]; cbn [forEach].
  - apply aborts_ret.
  - apply aborts_bind; auto.
Qed.

Lemma aborts_didChangeSimpleRepository repository :
  abortsOnRecord (didChangeSimpleRepository engine repository).
Proof.
  intros s e Hload.
  destruct (decide (commit repository
                    = indexedRepositoryRevisions s !! uri repository)) as [Heq | Hne].
  - rewrite (didChangeSimpleRepository_same engine repository s Heq). cbn. auto.
  - rewrite (didChangeSimpleRepository_changed engine repository s Hne).
    rewrite (indexEntry_rejected (Some repository) None _ e) by (cbn; eauto).
    cbn. split; [exact Hload |]. right. right. split; [reflexivity |]. eauto.
Qed.

Lemma aborts_didChangeGitExtensionRepository repository :
  abortsOnRecord (didChangeGitExtensionRepository engine repository).
Proof.
  unfold didChangeGitExtensionRepository.
  destruct (headCommit repository) as [c|]; [| apply aborts_ret].
  destruct (String.eqb c ""); [apply aborts_ret |].
  apply aborts_didChangeSimpleRepository.
Qed.

Lemma aborts_indexInferredGitRepositories ws :
  abortsOnRecord (indexInferredGitRepositories engine inferGitRepository ws).
Proof.
  unfold indexInferredGitRepositories.
  destruct (negb (indexParentGitFolder ws)); [apply aborts_ret |].
  apply aborts_forEach. intros folder s e Hload. unfold bind, get, await.
  destruct (bool_decide _); [cbn; auto |].
  destruct (inferGitRepository folder) as [[r|]|e'|]; cbn [fst snd]; auto.
  apply aborts_didChangeSimpleRepository, Hload.
Qed.

Lemma aborts_indexWorkspace ws :
  abortsOnRecord (indexWorkspace engine inferGitRepository ws).
Proof.
  unfold indexWorkspace. apply aborts_bind.
  - unfold indexGitRepositories.
    destruct (gitRepositories ws) as [repositories|]; [| apply aborts_ret].
    apply aborts_bind; [| intros _; apply aborts_indexInferredGitRepositories].
    apply aborts_forEach. intros r. apply aborts_didChangeGitExtensionRepository.
  - intros _. unfold indexRemainingWorkspaceFolders.
    apply aborts_forEach. intros folder s e Hload. unfold bind, get.
    destruct (isWorkspaceIndexed _ _); [cbn; auto |].
    rewrite (indexEntry_rejected None (Some folder) s e) by (cbn; eauto).
    cbn. auto.
Qed.

(** X16: after a failed spawn or handshake the initial indexing records
    at most one repository: the revision map of the new retriever is empty,
    or holds the one repository at which the indexing stopped, rejected with
    the error of the load. *)
Theorem failed_load_stops_indexing (ws : Workspace) :
  (exists e, spawnBfg = Throw e
             \/ (spawnBfg = Return tt /\ engine [] initializeRequest = Throw e)) ->
  let s := construct spawnBfg engine inferGitRepository ws in
  indexedRepositoryRevisions s = ∅
  \/ exists u c e,
       indexedRepositoryRevisions s = {[ u := c ]}
       /\ bfgIndexingPromise s = Throw e
       /\ loadedBFG s = Throw e.
Proof.
  intros [e Hfail] s. unfold s, construct.
  assert (Hload : exists sent,
            doLoadBFG spawnBfg engine (blank ws)
            = (Throw e, withRequests sent (withSpawned 1 (blank ws)))).
  { rewrite doLoadBFG_blank. destruct Hfail as [-> | [-> ->]].
    - now exists [].
    - now exists [initializeRequest]. }
  destruct Hload as [sent ->].
  destruct (aborts_indexWorkspace ws
              (withLoadedBFG (Throw e) (isThrow (@Throw unit e))
                 (withRequests sent (withSpawned 1 (blank ws)))) e eq_refl)
    as [Hloaded Hcases].
  destruct (indexWorkspace engine inferGitRepository ws _) as [indexing s3].
  cbn [fst snd] in *. cbn.
  destruct Hcases as [[_ Hmap] | [[_ Hmap] | [-> (u & c & Hmap)]]]; auto.
  right. exists u, c, e. rewrite Hmap. cbn. rewrite insert_empty. auto.
Qed.

End InitialIndexing.

Lemma workspace_without_git_extension_witness :
  let spawnBfg := Return tt in
  let engine := fun (_ : list Rpc) (_ : Rpc) => Return JNull in
  let inferGitRepository := fun _ : string => @Return (option SimpleRepository) None in
  let ws :=
    {| workspaceFolders := Some ["/a"; "/b"]; gitRepositories := None;
       indexParentGitFolder := false; awaitIndexingSetting := false |} in
  let s := construct spawnBfg engine inferGitRepository ws in
  (forall sent q, isPending (engine sent q) = false)
  /\ requests s = [initializeRequest; workspaceDidChange "/a"; workspaceDidChange "/b"]
  /\ indexedRepositoryRevisions s = ∅
  /\ bfgIndexingPromise s = Return tt
  /\ loadedBFG s = Return tt.
Proof.
  intros spawnBfg engine inferGitRepository ws s.
  split; [reflexivity |].
  exact (workspace_without_git_extension spawnBfg engine inferGitRepository ws JNull
           eq_refl eq_refl (fun _ _ => eq_refl) eq_refl).
Defined.

Lemma failed_load_stops_indexing_witness :
  let spawnBfg := @Throw unit (MkError "spawn ENOENT") in
  let engine := fun (_ : list Rpc) (_ : Rpc) => Return JNull in
  let inferGitRepository := fun _ : string => @Return (option SimpleRepository) None in
  let ws :=
    {| workspaceFolders := Some ["/a"; "/b"];
       gitRepositories :=
         Some [ {| rootUri := "/a"; headCommit := Some "1" |};
                {| rootUri := "/b"; headCommit := Some "2" |} ];
       indexParentGitFolder := false; awaitIndexingSetting := false |} in
  let s := construct spawnBfg engine inferGitRepository ws in
  (exists e, spawnBfg = Throw e
             \/ (spawnBfg = Return tt /\ engine [] initializeRequest = Throw e))
  /\ (indexedRepositoryRevisions s = ∅
      \/ exists u c e,
           indexedRepositoryRevisions s = {[ u := c ]}
           /\ bfgIndexingPromise s = Throw e
           /\ loadedBFG s = Throw e).
Proof.
  intros spawnBfg engine inferGitRepository ws s.
  assert (Hfail : exists e, spawnBfg = Throw e
             \/ (spawnBfg = Return tt /\ engine [] initializeRequest = Throw e)).
  { exists (MkError "spawn ENOENT"). now left. }
  split; [exact Hfail |].
  exact (failed_load_stops_indexing spawnBfg engine inferGitRepository ws Hfail).
Defined.

(** X21: inferring parent repositories passes over the workspace folders
    whose URI is itself a key of the revision map: when all of them are,
    the method returns without a change, whatever the setting and whatever
    [inferGitRepository] would find. *)
Theorem inferred_skips_known_folders
    (engine : list Rpc -> Rpc -> Outcome JsValue)
    (inferGitRepository : string -> Outcome (option SimpleRepository))
    (ws : Workspace) (s : BfgRetriever) :
  Forall (fun folder => is_Some (indexedRepositoryRevisions s !! folder))
    (default [] (workspaceFolders ws)) ->
  indexInferredGitRepositories engine inferGitRepository ws s = (Return tt, s).
Proof.
  intros Hknown. unfold indexInferredGitRepositories.
  destruct (negb (indexParentGitFolder ws)); [reflexivity |].
  induction Hknown as [|folder folders Hfolder _ IH]; [reflexivity |].
  cbn [forEach]. unfold bind at 1, bind at 1, get.
  rewrite (bool_decide_eq_true_2 _ Hfolder). exact IH.
Qed.

Lemma inferred_skips_known_folders_witness :
  let engine := fun (_ : list Rpc) (_ : Rpc) => Return JNull in
  let inferGitRepository :=
    fun _ : string => Return (Some {| uri := "/"; commit := Some "fff" |}) in
  let ws :=
    {| workspaceFolders := Some ["/repo"]; gitRepositories := None;
       indexParentGitFolder := true; awaitIndexingSetting := false |} in
  Forall (fun folder => is_Some (indexedRepositoryRevisions sampleLoaded !! folder))
    ["/repo"]
  /\ indexInferredGitRepositories engine inferGitRepository ws sampleLoaded
     = (Return tt, sampleLoaded).
Proof.
  intros engine inferGitRepository ws.
  assert (Hknown : Forall (fun folder =>
                             is_Some (indexedRepositoryRevisions sampleLoaded !! folder))
                     ["/repo"]).
  { apply List.Forall_cons; [| apply List.Forall_nil].
    cbn. rewrite lookup_singleton_eq. now exists "abc". }
  split; [exact Hknown |].
  exact (inferred_skips_known_folders engine inferGitRepository ws sampleLoaded Hknown).
Defined.

End BfgExtra.
